(** * go-json-matcher: the matching engine of [json_matcher.go]

    A shallow embedding of the matcher and the properties of its
    specification.  Values are the trees [encoding/json] decodes into
    [interface{}]; the matcher returns a list of conflicts and an optional
    error, or panics (an index out of range); the Go library functions the
    matcher calls ([json.Unmarshal], [regexp.Compile], [time.Parse]) are
    fields of an interface, [GoLib], over which every theorem quantifies. *)

From Stdlib Require Import String Ascii List Bool Arith Lia QArith DecimalString.
Import ListNotations.
Local Open Scope string_scope.
Local Open Scope list_scope.
Local Close Scope Q_scope.
Local Open Scope nat_scope.

Set Implicit Arguments.

(** ** Values

    [json.Unmarshal] into an [interface{}] yields [nil], [bool], [float64],
    [string], [[]interface{}] and [map[string]interface{}].  A decoded number
    is a finite [float64]; it is modelled by the rational it denotes, on which
    Go's [==] is equality of the denoted numbers.  A map is the list of its
    entries in the order [MapRange] visits them: Go leaves that order open,
    and the theorems hold for every list, that is for every order, one order
    for each map. *)

#[warnings="-register-all"]
Inductive Value : Type :=
| VNull
| VBool (b : bool)
| VNum (q : Q)
| VStr (s : string)
| VArr (elems : list Value)
| VObj (entries : list (string * Value)).

(** [reflect.Kind], as far as the source names kinds. *)
Module reflect.
Inductive Kind : Type :=
| Invalid | Bool | Int | Int64 | Float64 | Array | Interface
| Map | Ptr | Slice | String | Struct.

Definition Kind_eqb (k1 k2 : Kind) : bool :=
  match k1, k2 with
  | Invalid, Invalid | Bool, Bool | Int, Int | Int64, Int64
  | Float64, Float64 | Array, Array | Interface, Interface | Map, Map
  | Ptr, Ptr | Slice, Slice | String, String | Struct, Struct => true
  | _, _ => false
  end.
End reflect.

(** [reflect.ValueOf(x).Kind()]: the zero [reflect.Value] of [nil] has kind
    [Invalid]. *)
Definition KindOf (x : Value) : reflect.Kind :=
  match x with
  | VNull => reflect.Invalid
  | VBool _ => reflect.Bool
  | VNum _ => reflect.Float64
  | VStr _ => reflect.String
  | VArr _ => reflect.Slice
  | VObj _ => reflect.Map
  end.

(** [reflect.ValueOf(x).IsValid()]. *)
Definition IsValid (x : Value) : bool := negb (reflect.Kind_eqb (KindOf x) reflect.Invalid).

(** [x == nil]. *)
Definition isNil (x : Value) : bool :=
  match x with VNull => true | _ => false end.

(** [xV.IsNil()] is asked of pointers only, and [x.(time.Time)] of structs
    only; a decoded value is neither. *)
Definition IsNil (x : Value) : bool := false.
Definition isTime (x : Value) : bool := false.

(** ** Errors, conflicts, outcomes *)

(** The errors of the source, one constructor per [fmt.Errorf] (the wrapped
    error as an argument), and [ErrLib] for an error of a library call. *)
Inductive error : Type :=
| ErrLib (msg : string)
| ErrUnmarshalLeft (e : error)
| ErrUnmarshalPattern (e : error)
| ErrRegexArity
| ErrRegexInvalid (e : error)
| ErrUnsupportedPattern (marker : string)
| ErrUnsupportedKind (x : Value) (k : reflect.Kind)
| ErrWrongKindLeft (expected got : reflect.Kind)
| ErrWrongKindPattern (expected got : reflect.Kind)
| ErrMapElement (path key : string) (e : error)
| ErrMapElementSpec (key : string) (e : error)
| ErrSliceElement (i : nat) (e : error).

(** The [Actual] field holds the actual value or, in the conflicts of
    [_matchMapCheckIteratingSpec], the text [fmt.Sprint] gives for the
    [reflect.Value] of a map lookup ([None]: the invalid value of a missing
    key). *)
Inductive actual : Type :=
| Got (x : Value)
| Printed (xValue : option Value).

Record Conflict : Type := mkConflict {
  Path : string;
  Expected : Value;
  Actual : actual;
  Error : option error
}.

Inductive panic : Type :=
| IndexOutOfRange (i len : nat).

(** What a matcher call does: it returns [([]Conflict, error)] or panics. *)
Inductive outcome : Type :=
| Returns (conflicts : list Conflict) (err : option error)
| Panics (p : panic).

(** ** Strings *)

(** [strings.HasPrefix(s, pre)]. *)
Fixpoint HasPrefix (s pre : string) {struct pre} : bool :=
  match pre with
  | EmptyString => true
  | String a pre' =>
      match s with
      | EmptyString => false
      | String b s' => Ascii.eqb a b && HasPrefix s' pre'
      end
  end.

(** [strings.SplitN(s, " ", 2)]: [s] cut at its first space, or [s] alone. *)
Fixpoint cutSpace (s : string) : option (string * string) :=
  match s with
  | EmptyString => None
  | String c rest =>
      if Ascii.eqb c " "%char then Some (EmptyString, rest)
      else match cutSpace rest with
           | Some (before, after) => Some (String c before, after)
           | None => None
           end
  end.

Definition SplitN2 (s : string) : list string :=
  match cutSpace s with
  | Some (before, after) => [before; after]
  | None => [s]
  end.

(** [fmt.Sprint(i)] of a loop index. *)
Definition Sprint_int (i : nat) : string := NilZero.string_of_uint (Nat.to_uint i).

(** ** The UUID patterns

    [uuidRe] and [uuidV4Re] are anchored, case-insensitive and made of runs of
    hexadecimal digits and hyphens; they are matched here directly. *)

Definition isHex (c : ascii) : bool :=
  let n := nat_of_ascii c in
  ((48 <=? n) && (n <=? 57)) || ((97 <=? n) && (n <=? 102)) || ((65 <=? n) && (n <=? 70)).

Fixpoint hexRun (n : nat) (s : string) : option string :=
  match n with
  | O => Some s
  | S n' => match s with
            | String c rest => if isHex c then hexRun n' rest else None
            | EmptyString => None
            end
  end.

Definition lit (c : ascii) (s : string) : option string :=
  match s with
  | String c' rest => if Ascii.eqb c c' then Some rest else None
  | EmptyString => None
  end.

Definition oneOf (cs : list ascii) (s : string) : option string :=
  match s with
  | String c' rest => if existsb (Ascii.eqb c') cs then Some rest else None
  | EmptyString => None
  end.

Definition andThen (r : option string) (f : string -> option string) : option string :=
  match r with Some s => f s | None => None end.

Definition atEnd (r : option string) : bool :=
  match r with Some EmptyString => true | _ => false end.

Definition uuidRe_MatchString (s : string) : bool :=
  atEnd (andThen (andThen (andThen (andThen (andThen (andThen (andThen (andThen
    (hexRun 8 s) (lit "-")) (hexRun 4)) (lit "-")) (hexRun 4)) (lit "-"))
    (hexRun 4)) (lit "-")) (hexRun 12)).

Definition uuidV4Re_MatchString (s : string) : bool :=
  atEnd (andThen (andThen (andThen (andThen (andThen (andThen (andThen (andThen
    (andThen (andThen
    (hexRun 8 s) (lit "-")) (hexRun 4)) (lit "-")) (lit "4")) (hexRun 3)) (lit "-"))
    (oneOf ["8"; "9"; "a"; "A"; "b"; "B"]%char)) (hexRun 3)) (lit "-")) (hexRun 12)).

(** ** The Go library

    What the matcher asks of [encoding/json], [regexp] and [time]. *)
Record GoLib : Type := mkGoLib {
  (** [json.Unmarshal(bytes, &v)]: the decoded value or the decode error. *)
  json_Unmarshal : string -> Value + error;
  (** [regexp.Compile]: a compiled expression or the compile error. *)
  Regexp : Type;
  regexp_Compile : string -> Regexp + error;
  MatchString : Regexp -> string -> bool;
  (** [time.Parse(layout, s)] succeeds, for the layouts ["2006-01-02"] and
      [time.RFC3339]. *)
  time_Parse_date : string -> bool;
  time_Parse_RFC3339 : string -> bool
}.

Definition ignoreMarker : string := "#ignore".
Definition nullMarker : string := "#null".
Definition presentMarker : string := "#present".

Definition getMarker (y : Value) : bool * string :=
  match y with
  | VStr specString => if HasPrefix specString "#" then (true, specString) else (false, "")
  | _ => (false, "")
  end.

Definition isMarker (y : Value) (marker : string) : bool :=
  let (isMarker, gotMarker) := getMarker y in
  isMarker && String.eqb marker gotMarker.

Definition _matchZero (path : string) (x : Value) : list Conflict :=
  if negb (IsValid x) then []
  else [mkConflict path VNull (Got x) None].

Section Matcher.

Variable lib : GoLib.

Definition _matchWithMarker (path : string) (x : Value) (marker : string) : outcome :=
  let possibleConflict := mkConflict path (VStr marker) (Got x) None in
  if isNil x && (String.eqb marker ignoreMarker || String.eqb marker nullMarker
                 || String.eqb marker presentMarker)
  then Returns [] None
  else if negb (IsValid x) then Returns [possibleConflict] None
  else
    let markerParts := SplitN2 marker in
    match markerParts with
    | [] => Panics (IndexOutOfRange 0 0)
    | name :: args =>
      if String.eqb name ignoreMarker then Returns [] None
      else if String.eqb name nullMarker then
        if negb (reflect.Kind_eqb (KindOf x) reflect.Ptr) then Returns [possibleConflict] None
        else if IsNil x then Returns [] None
        else Returns [possibleConflict] None
      else if String.eqb name "#notnull" then
        if negb (reflect.Kind_eqb (KindOf x) reflect.Ptr) then Returns [] None
        else if negb (IsNil x) then Returns [] None
        else Returns [possibleConflict] None
      else if String.eqb name presentMarker then Returns [] None
      else if String.eqb name "#notpresent" then Returns [possibleConflict] None
      else if String.eqb name "#array" then
        if negb (reflect.Kind_eqb (KindOf x) reflect.Array) && negb (reflect.Kind_eqb (KindOf x) reflect.Slice)
        then Returns [possibleConflict] None
        else Returns [] None
      else if String.eqb name "#object" then
        if negb (reflect.Kind_eqb (KindOf x) reflect.Map) then Returns [possibleConflict] None
        else Returns [] None
      else if String.eqb name "#bool" || String.eqb name "#boolean" then
        if negb (reflect.Kind_eqb (KindOf x) reflect.Bool) then Returns [possibleConflict] None
        else Returns [] None
      else if String.eqb name "#number" then
        if negb (reflect.Kind_eqb (KindOf x) reflect.Int64) && negb (reflect.Kind_eqb (KindOf x) reflect.Float64)
        then Returns [possibleConflict] None
        else Returns [] None
      else if String.eqb name "#string" then
        if negb (reflect.Kind_eqb (KindOf x) reflect.String) then Returns [possibleConflict] None
        else Returns [] None
      else if String.eqb name "#date" then
        match x with
        | VStr xString =>
            if time_Parse_date lib xString then Returns [] None
            else Returns [possibleConflict] None
        | _ =>
            if reflect.Kind_eqb (KindOf x) reflect.Struct && isTime x then Returns [] None
            else Returns [possibleConflict] None
        end
      else if String.eqb name "#datetime" then
        match x with
        | VStr xString =>
            if time_Parse_RFC3339 lib xString then Returns [] None
            else Returns [possibleConflict] None
        | _ =>
            if reflect.Kind_eqb (KindOf x) reflect.Struct && isTime x then Returns [] None
            else Returns [possibleConflict] None
        end
      else if String.eqb name "#uuid" then
        match x with
        | VStr xString =>
            if uuidRe_MatchString xString then Returns [] None
            else Returns [possibleConflict] None
        | _ => Returns [possibleConflict] None
        end
      else if String.eqb name "#uuid-v4" then
        match x with
        | VStr xString =>
            if uuidV4Re_MatchString xString then Returns [] None
            else Returns [possibleConflict] None
        | _ => Returns [possibleConflict] None
        end
      else if String.eqb name "#regex" then
        match args with
        | [arg] =>
            match regexp_Compile lib arg with
            | inr err => Returns [possibleConflict] (Some (ErrRegexInvalid err))
            | inl r =>
                match x with
                | VStr xString =>
                    if MatchString lib r xString then Returns [] None
                    else Returns [possibleConflict] None
                | _ => Returns [possibleConflict] None
                end
            end
        | _ => Returns [possibleConflict] (Some ErrRegexArity)
        end
      else Returns [possibleConflict] (Some (ErrUnsupportedPattern marker))
    end.

End Matcher.

(** ** Containers *)

Definition entries : Type := list (string * Value).

(** [vY.MapIndex(key)]: [None] is the invalid [reflect.Value] of a missing
    key. *)
Fixpoint MapIndex (m : entries) (key : string) : option Value :=
  match m with
  | [] => None
  | (k, v) :: m' => if String.eqb k key then Some v else MapIndex m' key
  end.

(** [vY.Index(i)]: [None] where Go panics, the index being out of range. *)
Fixpoint Index (l : list Value) (i : nat) : option Value :=
  match l, i with
  | [], _ => None
  | v :: _, O => Some v
  | _ :: l', S i' => Index l' i'
  end.

(** [reflect.DeepEqual] on decoded values. *)
Fixpoint DeepEqual (x y : Value) {struct x} : bool :=
  match x, y with
  | VNull, VNull => true
  | VBool a, VBool b => Bool.eqb a b
  | VNum a, VNum b => Qeq_bool a b
  | VStr a, VStr b => String.eqb a b
  | VArr xs, VArr ys =>
      (fix elems (xs ys : list Value) : bool :=
         match xs, ys with
         | [], [] => true
         | x' :: xs', y' :: ys' => DeepEqual x' y' && elems xs' ys'
         | _, _ => false
         end) xs ys
  | VObj xs, VObj ys =>
      Nat.eqb (length xs) (length ys) &&
      (fix keys (xs : entries) : bool :=
         match xs with
         | [] => true
         | (k, xv) :: xs' =>
             match MapIndex ys k with
             | Some yv => DeepEqual xv yv
             | None => false
             end && keys xs'
         end) xs
  | _, _ => false
  end.

Definition _matchPrimitive (path : string) (x y : Value) : outcome :=
  if negb (DeepEqual x y)
  then Returns [mkConflict path y (Got x) None] None
  else Returns [] None.

Definition matcher : Type := string -> Value -> Value -> outcome.

(** ** The container matchers and the body of [_match]

    The functions of the source, with [rec] for their calls of [_match].
    Each loop carries [conflicts], the slice the Go loop appends to. *)
Section Body.

Variable lib : GoLib.
Variable rec : matcher.

(** One round of a loop after its call of [_match]: append the item's
    conflicts, return on an error (wrapped by [wrap]), else go on. *)
Definition afterItem (item : outcome) (conflicts : list Conflict)
  (wrap : error -> error) (next : list Conflict -> outcome) : outcome :=
  match item with
  | Panics p => Panics p
  | Returns itemConflicts err =>
      let conflicts := conflicts ++ itemConflicts in
      match err with
      | Some e => Returns conflicts (Some (wrap e))
      | None => next conflicts
      end
  end.

(** [for i := 0; i < sliceLen; i++]: [rest] is [vX] from index [i] on. *)
Fixpoint sliceLoop (path : string) (isArrayOf : bool) (arrayOf : Value)
  (vY : list Value) (i : nat) (rest : list Value) (conflicts : list Conflict)
  {struct rest} : outcome :=
  match rest with
  | [] => Returns conflicts None
  | xElem :: rest' =>
      match (if isArrayOf then Some arrayOf else Index vY i) with
      | None => Panics (IndexOutOfRange i (length vY))
      | Some ySpecElem =>
          afterItem (rec (path ++ "[" ++ Sprint_int i ++ "]")%string xElem ySpecElem)
            conflicts (ErrSliceElement i)
            (sliceLoop path isArrayOf arrayOf vY (S i) rest')
      end
  end.

Definition _matchSlice (path : string) (x y : Value) : outcome :=
  let possibleConflict := mkConflict path y (Got x) None in
  match x with
  | VArr vX =>
      match y with
      | VArr vY =>
          if length vY =? 2 then
            match Index vY 0, Index vY 1 with
            | Some first, Some second =>
                let (isMarker_, firstMarker) := getMarker first in
                if isMarker_ && String.eqb firstMarker "#array-of"
                then sliceLoop path true second vY 0 vX []
                else sliceLoop path false VNull vY 0 vX []
            | None, _ => Panics (IndexOutOfRange 0 (length vY))
            | _, None => Panics (IndexOutOfRange 1 (length vY))
            end
          else if negb (length vX =? length vY) then Returns [possibleConflict] None
          else sliceLoop path false VNull vY 0 vX []
      | _ => Returns [possibleConflict]
               (Some (ErrWrongKindPattern reflect.Slice (KindOf x)))
      end
  | _ => Returns [possibleConflict] (Some (ErrWrongKindLeft reflect.Slice (KindOf x)))
  end.

(** [for iterX.Next()] of [_matchMapCheckIteratingObject]. *)
Fixpoint objectLoop (path : string) (vY : entries) (iterX : entries)
  (conflicts : list Conflict) {struct iterX} : outcome :=
  match iterX with
  | [] => Returns conflicts None
  | (key, value) :: iterX' =>
      match MapIndex vY key with
      | None => objectLoop path vY iterX' conflicts
      | Some ySpecValue =>
          afterItem (rec (path ++ "/" ++ key)%string value ySpecValue)
            conflicts (ErrMapElement path key)
            (objectLoop path vY iterX')
      end
  end.

Definition _matchMapCheckIteratingObject (path : string) (vX vY : entries) : outcome :=
  objectLoop path vY vX [].

(** [for iterY.Next()] of [_matchMapCheckIteratingSpec].  The test
    [ySpecValue.Kind() == reflect.Interface] holds of every element of a
    [map[string]interface{}], and [xValue.IsValid()] says that the key is in
    the actual map. *)
Fixpoint specLoop (path : string) (vX : entries) (iterY : entries)
  (conflicts : list Conflict) {struct iterY} : outcome :=
  match iterY with
  | [] => Returns conflicts None
  | (key, ySpecValue) :: iterY' =>
      let xValue := MapIndex vX key in
      let possibleConflict :=
        mkConflict (path ++ "/" ++ key)%string ySpecValue (Printed xValue) None in
      let (isMarker_, marker) := getMarker ySpecValue in
      if isMarker_ && String.eqb marker "#notpresent" then
        match xValue with
        | Some _ => specLoop path vX iterY' (conflicts ++ [possibleConflict])
        | None => specLoop path vX iterY' conflicts
        end
      else if isMarker_ && String.eqb marker presentMarker then
        match xValue with
        | None => specLoop path vX iterY' (conflicts ++ [possibleConflict])
        | Some _ => specLoop path vX iterY' conflicts
        end
      else if negb (isMarker ySpecValue ignoreMarker) then
        match xValue with
        | None => specLoop path vX iterY' (conflicts ++ [possibleConflict])
        | Some xv =>
            afterItem (rec (path ++ "/" ++ key)%string xv ySpecValue)
              conflicts (ErrMapElementSpec key)
              (specLoop path vX iterY')
        end
      else specLoop path vX iterY' conflicts
  end.

Definition _matchMapCheckIteratingSpec (path : string) (vX vY : entries) : outcome :=
  specLoop path vX vY [].

Definition _matchMap (path : string) (x y : Value) : outcome :=
  let possibleConflict := mkConflict path y (Got x) None in
  match x with
  | VObj vX =>
      match y with
      | VObj vY =>
          match _matchMapCheckIteratingObject path vX vY with
          | Panics p => Panics p
          | Returns conflicts err =>
              if 0 <? length conflicts then Returns conflicts err
              else _matchMapCheckIteratingSpec path vX vY
          end
      | _ => Returns [possibleConflict]
               (Some (ErrWrongKindPattern reflect.Map (KindOf x)))
      end
  | _ => Returns [possibleConflict] (Some (ErrWrongKindLeft reflect.Map (KindOf x)))
  end.

(** The table [matchers], filled by [init]. *)
Definition matchers (k : reflect.Kind) : option matcher :=
  match k with
  | reflect.Bool | reflect.String | reflect.Int | reflect.Int64
  | reflect.Float64 => Some _matchPrimitive
  | reflect.Map => Some _matchMap
  | reflect.Slice | reflect.Array => Some _matchSlice
  | _ => None
  end.

(** The body of [_match]. *)
Definition _match_body (path : string) (x spec : Value) : outcome :=
  let possibleConflict := mkConflict path spec (Got x) None in
  if negb (IsValid spec) then Returns (_matchZero path x) None
  else
    let (isMarker_, specMarker) := getMarker spec in
    if reflect.Kind_eqb (KindOf spec) reflect.String && isMarker_
    then _matchWithMarker lib path x specMarker
    else if negb (IsValid x) then Returns [possibleConflict] None
    else if negb (reflect.Kind_eqb (KindOf x) (KindOf spec))
    then Returns [possibleConflict] None
    else
      match matchers (KindOf spec) with
      | Some m => m path x spec
      | None => Returns [possibleConflict] (Some (ErrUnsupportedKind x (KindOf x)))
      end.

End Body.

(** ** [_match]

    [_match] calls itself on the patterns it takes out of the pattern's slice
    or map, so it is a recursion on the pattern.  For the recursion to be
    structural the loops below hand the pattern taken out of a container to a
    continuation; [_match_unfold] states that [_match] is the body of the
    source, [_match_body], called on itself. *)
Section Lookups.

Variable A : Type.
Variable found : Value -> A.
Variable missing : A.

Fixpoint withMapIndex (key : string) (m : entries) {struct m} : A :=
  match m with
  | [] => missing
  | (k, v) :: m' => if String.eqb k key then found v else withMapIndex key m'
  end.

Fixpoint withIndex (i : nat) (l : list Value) {struct l} : A :=
  match l, i with
  | [], _ => missing
  | v :: _, O => found v
  | _ :: l', S i' => withIndex i' l'
  end.

End Lookups.

Section Structural.

Variable rec : matcher.
Variable path : string.

Section SliceLoopK.
(** [specAt i k]: the pattern of index [i], handed to [k]. *)
Variable specAt : nat -> (Value -> outcome) -> outcome.

Fixpoint sliceLoopK (i : nat) (rest : list Value) (conflicts : list Conflict)
  {struct rest} : outcome :=
  match rest with
  | [] => Returns conflicts None
  | xElem :: rest' =>
      specAt i (fun ySpecElem =>
        afterItem (rec (path ++ "[" ++ Sprint_int i ++ "]")%string xElem ySpecElem)
          conflicts (ErrSliceElement i) (sliceLoopK (S i) rest'))
  end.
End SliceLoopK.

Section ObjectLoopK.
Variable vY : entries.

Fixpoint objectLoopK (iterX : entries) (conflicts : list Conflict)
  {struct iterX} : outcome :=
  match iterX with
  | [] => Returns conflicts None
  | (key, value) :: iterX' =>
      withMapIndex
        (fun ySpecValue =>
           afterItem (rec (path ++ "/" ++ key)%string value ySpecValue)
             conflicts (ErrMapElement path key) (objectLoopK iterX'))
        (objectLoopK iterX' conflicts) key vY
  end.
End ObjectLoopK.

End Structural.

Section Match.

Variable lib : GoLib.

Fixpoint _match (path : string) (x spec : Value) {struct spec} : outcome :=
  let possibleConflict := mkConflict path spec (Got x) None in
  if negb (IsValid spec) then Returns (_matchZero path x) None
  else
    let (isMarker_, specMarker) := getMarker spec in
    if reflect.Kind_eqb (KindOf spec) reflect.String && isMarker_
    then _matchWithMarker lib path x specMarker
    else if negb (IsValid x) then Returns [possibleConflict] None
    else if negb (reflect.Kind_eqb (KindOf x) (KindOf spec))
    then Returns [possibleConflict] None
    else
      match spec with
      | VNull => Returns [possibleConflict] (Some (ErrUnsupportedKind x (KindOf x)))
      | VBool _ | VNum _ | VStr _ => _matchPrimitive path x spec
      | VArr vY =>
          match x with
          | VArr vX =>
              let elementwise :=
                sliceLoopK _match path
                  (fun i k => withIndex k (Panics (IndexOutOfRange i (length vY))) i vY)
                  0 vX [] in
              match vY with
              | [first; second] =>
                  let (isMarker_, firstMarker) := getMarker first in
                  if isMarker_ && String.eqb firstMarker "#array-of"
                  then sliceLoopK _match path (fun _ k => k second) 0 vX []
                  else elementwise
              | _ =>
                  if negb (length vX =? length vY)
                  then Returns [possibleConflict] None
                  else elementwise
              end
          | _ => Returns [possibleConflict]
                   (Some (ErrWrongKindLeft reflect.Slice (KindOf x)))
          end
      | VObj vY =>
          match x with
          | VObj vX =>
              match objectLoopK _match path vY vX [] with
              | Panics p => Panics p
              | Returns conflicts err =>
                  if 0 <? length conflicts then Returns conflicts err
                  else specLoop _match path vX vY []
              end
          | _ => Returns [possibleConflict]
                   (Some (ErrWrongKindLeft reflect.Map (KindOf x)))
          end
      end.

End Match.

(** ** The entry points *)

(** [c.Path[1:]]. *)
Definition dropFirst (s : string) : string :=
  match s with
  | EmptyString => EmptyString
  | String _ rest => rest
  end.

(** [if strings.HasPrefix(c.Path, "//") { c.Path = c.Path[1:] }]. *)
Definition stripSlash (c : Conflict) : Conflict :=
  if HasPrefix (Path c) "//"
  then mkConflict (dropFirst (Path c)) (Expected c) (Actual c) (Error c)
  else c.

(** One round of the loop over [conflicts] in [JSONMatches]. *)
Definition stripRound (resultingConflicts : list Conflict) (c : Conflict) : list Conflict :=
  resultingConflicts ++ [stripSlash c].

Definition JSONMatches (lib : GoLib) (j jPatternSpecifier : string) : outcome :=
  match json_Unmarshal lib j with
  | inr err =>
      Returns [mkConflict "/" VNull (Got VNull) (Some err)] (Some (ErrUnmarshalLeft err))
  | inl jAny =>
      match json_Unmarshal lib jPatternSpecifier with
      | inr err =>
          Returns [mkConflict "/" VNull (Got VNull) (Some err)]
            (Some (ErrUnmarshalPattern err))
      | inl patternSpecAny =>
          match _match lib "/" jAny patternSpecAny with
          | Panics p => Panics p
          | Returns conflicts err => Returns (fold_left stripRound conflicts []) err
          end
      end
  end.

Definition JSONStringMatches (lib : GoLib) (j jPatternSpecifier : string) : outcome :=
  JSONMatches lib j jPatternSpecifier.

(** ** Decoded values

    What holds of every value [json.Unmarshal] yields: a map holds each key
    once. *)
Definition keys (m : entries) : list string := List.map fst m.

#[warnings="-register-all"]
Inductive decoded : Value -> Prop :=
| decoded_null : decoded VNull
| decoded_bool b : decoded (VBool b)
| decoded_num q : decoded (VNum q)
| decoded_str s : decoded (VStr s)
| decoded_arr elems : Forall decoded elems -> decoded (VArr elems)
| decoded_obj m :
    NoDup (keys m) -> Forall (fun kv => decoded (snd kv)) m -> decoded (VObj m).

(** A literal pattern: no string in it is a marker. *)
#[warnings="-register-all"]
Inductive literal : Value -> Prop :=
| literal_null : literal VNull
| literal_bool b : literal (VBool b)
| literal_num q : literal (VNum q)
| literal_str s : HasPrefix s "#" = false -> literal (VStr s)
| literal_arr elems : Forall literal elems -> literal (VArr elems)
| literal_obj m : Forall (fun kv => literal (snd kv)) m -> literal (VObj m).

(** The names [_matchWithMarker] knows. *)
Definition supportedMarkers : list string :=
  ["#ignore"; "#null"; "#notnull"; "#present"; "#notpresent"; "#array"; "#object";
   "#bool"; "#boolean"; "#number"; "#string"; "#date"; "#datetime"; "#uuid";
   "#uuid-v4"; "#regex"].

(** ** An instance of the Go library

    [fragmentLib] answers as the Go library does on a fragment of its inputs
    and reports an error elsewhere: JSON texts without escapes, fractions and
    exponents; regular expressions without metacharacters (matched as
    substrings); dates, and date-times in UTC without fractions of a second.
    It serves to run the matcher on concrete inputs. *)
Module Fragment.

Definition dquote : ascii := ascii_of_nat 34.

Definition isDigit (c : ascii) : bool :=
  let n := nat_of_ascii c in (48 <=? n) && (n <=? 57).

Definition isSpace (c : ascii) : bool :=
  let n := nat_of_ascii c in (n =? 32) || (n =? 9) || (n =? 10) || (n =? 13).

Fixpoint skipSpace (s : string) : string :=
  match s with
  | String c rest => if isSpace c then skipSpace rest else s
  | EmptyString => s
  end.

(** A run of digits, as a number, and the rest. *)
Fixpoint digits (s : string) (acc : nat) (seen : bool) : option (nat * string) :=
  match s with
  | String c rest =>
      if isDigit c then digits rest (10 * acc + (nat_of_ascii c - 48)) true
      else if seen then Some (acc, s) else None
  | EmptyString => if seen then Some (acc, s) else None
  end.

(** Exactly [n] digits, as a number, and the rest. *)
Fixpoint digitsN (n : nat) (s : string) (acc : nat) : option (nat * string) :=
  match n with
  | O => Some (acc, s)
  | S n' =>
      match s with
      | String c rest =>
          if isDigit c then digitsN n' rest (10 * acc + (nat_of_ascii c - 48)) else None
      | EmptyString => None
      end
  end.

(** The characters of a string literal up to its closing quote. *)
Fixpoint untilQuote (s : string) : option (string * string) :=
  match s with
  | EmptyString => None
  | String c rest =>
      if Ascii.eqb c dquote then Some (EmptyString, rest)
      else if Ascii.eqb c "\"%char || (nat_of_ascii c <? 32) then None
      else match untilQuote rest with
           | Some (body, rest') => Some (String c body, rest')
           | None => None
           end
  end.

(** A later member of a JSON object replaces an earlier one of its key. *)
Fixpoint setKey (key : string) (v : Value) (m : entries) : entries :=
  match m with
  | [] => [(key, v)]
  | (k, v') :: m' => if String.eqb k key then (k, v) :: m' else (k, v') :: setKey key v m'
  end.

Definition number (negative : bool) (s : string) : option (Value * string) :=
  match digits s 0 false with
  | Some (n, rest) =>
      match rest with
      | String c _ =>
          if Ascii.eqb c "."%char || Ascii.eqb c "e"%char || Ascii.eqb c "E"%char
          then None
          else Some (VNum (inject_Z (if negative then - Z.of_nat n else Z.of_nat n)), rest)
      | EmptyString =>
          Some (VNum (inject_Z (if negative then - Z.of_nat n else Z.of_nat n)), rest)
      end
  | None => None
  end.

Definition keyword (word : string) (v : Value) (s : string) : option (Value * string) :=
  if String.prefix word s
  then Some (v, String.substring (String.length word) (String.length s) s)
  else None.

Fixpoint value (fuel : nat) (s : string) {struct fuel} : option (Value * string) :=
  match fuel with
  | O => None
  | S fuel' =>
      match skipSpace s with
      | EmptyString => None
      | String c rest =>
          if Ascii.eqb c "n"%char then keyword "null" VNull (String c rest)
          else if Ascii.eqb c "t"%char then keyword "true" (VBool true) (String c rest)
          else if Ascii.eqb c "f"%char then keyword "false" (VBool false) (String c rest)
          else if Ascii.eqb c dquote then
            match untilQuote rest with
            | Some (body, rest') => Some (VStr body, rest')
            | None => None
            end
          else if Ascii.eqb c "-"%char then number true rest
          else if isDigit c then number false (String c rest)
          else if Ascii.eqb c "["%char then
            match skipSpace rest with
            | String "]"%char rest' => Some (VArr [], rest')
            | _ => elements fuel' rest []
            end
          else if Ascii.eqb c "{"%char then
            match skipSpace rest with
            | String "}"%char rest' => Some (VObj [], rest')
            | _ => members fuel' rest []
            end
          else None
      end
  end
with elements (fuel : nat) (s : string) (acc : list Value) {struct fuel}
  : option (Value * string) :=
  match fuel with
  | O => None
  | S fuel' =>
      match value fuel' s with
      | Some (v, rest) =>
          match skipSpace rest with
          | String ","%char rest' => elements fuel' rest' (acc ++ [v])
          | String "]"%char rest' => Some (VArr (acc ++ [v]), rest')
          | _ => None
          end
      | None => None
      end
  end
with members (fuel : nat) (s : string) (acc : entries) {struct fuel}
  : option (Value * string) :=
  match fuel with
  | O => None
  | S fuel' =>
      match skipSpace s with
      | String c rest =>
          if Ascii.eqb c dquote then
            match untilQuote rest with
            | Some (key, rest') =>
                match skipSpace rest' with
                | String ":"%char rest'' =>
                    match value fuel' rest'' with
                    | Some (v, rest3) =>
                        match skipSpace rest3 with
                        | String ","%char rest4 => members fuel' rest4 (setKey key v acc)
                        | String "}"%char rest4 => Some (VObj (setKey key v acc), rest4)
                        | _ => None
                        end
                    | None => None
                    end
                | _ => None
                end
            | None => None
            end
          else None
      | EmptyString => None
      end
  end.

Definition Unmarshal (s : string) : Value + error :=
  match value (2 * String.length s + 2) s with
  | Some (v, rest) =>
      match skipSpace rest with
      | EmptyString => inl v
      | _ => inr (ErrLib "invalid character after top-level value")
      end
  | None => inr (ErrLib "invalid character or unexpected end of JSON input")
  end.

Definition isMeta (c : ascii) : bool :=
  existsb (Ascii.eqb c)
    ["\"; "."; "+"; "*"; "?"; "("; ")"; "|"; "["; "]"; "{"; "}"; "^"; "$"]%char.

Fixpoint anyMeta (s : string) : bool :=
  match s with
  | EmptyString => false
  | String c rest => isMeta c || anyMeta rest
  end.

Definition Compile (s : string) : string + error :=
  if anyMeta s then inr (ErrLib "error parsing regexp") else inl s.

Fixpoint contains (fuel : nat) (r s : string) : bool :=
  String.prefix r s ||
  match fuel, s with
  | S fuel', String _ rest => contains fuel' r rest
  | _, _ => false
  end.

Definition Match (r s : string) : bool := contains (String.length s) r s.

Definition leap (y : nat) : bool :=
  ((y mod 4 =? 0) && negb (y mod 100 =? 0)) || (y mod 400 =? 0).

Definition daysIn (y m : nat) : nat :=
  match m with
  | 2 => if leap y then 29 else 28
  | 4 | 6 | 9 | 11 => 30
  | _ => 31
  end.

(** [YYYY-MM-DD] and the rest. *)
Definition date (s : string) : option string :=
  match digitsN 4 s 0 with
  | Some (y, String "-"%char s1) =>
      match digitsN 2 s1 0 with
      | Some (m, String "-"%char s2) =>
          match digitsN 2 s2 0 with
          | Some (d, rest) =>
              if (1 <=? m) && (m <=? 12) && (1 <=? d) && (d <=? daysIn y m)
              then Some rest else None
          | None => None
          end
      | _ => None
      end
  | _ => None
  end.

Definition ParseDate (s : string) : bool :=
  match date s with Some EmptyString => true | _ => false end.

Definition ParseRFC3339 (s : string) : bool :=
  match date s with
  | Some (String "T"%char s1) =>
      match digitsN 2 s1 0 with
      | Some (h, String ":"%char s2) =>
          match digitsN 2 s2 0 with
          | Some (mi, String ":"%char s3) =>
              match digitsN 2 s3 0 with
              | Some (sec, String "Z"%char EmptyString) =>
                  (h <? 24) && (mi <? 60) && (sec <? 60)
              | _ => false
              end
          | _ => false
          end
      | _ => false
      end
  | _ => false
  end.

End Fragment.

Definition fragmentLib : GoLib :=
  mkGoLib Fragment.Unmarshal Fragment.Compile Fragment.Match
          Fragment.ParseDate Fragment.ParseRFC3339.

(** ** Inputs of the examples *)

(** The tab character, and a JSON string literal. *)
Definition tab : string := String (ascii_of_nat 9) EmptyString.
Definition quoted (s : string) : string :=
  String Fragment.dquote s ++ String Fragment.dquote EmptyString.

(** [{"name":"Bob","tags":[1,true,null],"address":{"city":"Oslo","zip":"0150"}}]. *)
Definition sampleDocument : Value :=
  VObj [("name", VStr "Bob");
        ("tags", VArr [VNum 1; VBool true; VNull]);
        ("address", VObj [("city", VStr "Oslo"); ("zip", VStr "0150")])].

(** ** Induction on values, and what the proofs say of an outcome *)

Section ValueInduction.

Variable P : Value -> Prop.
Hypothesis Hnull : P VNull.
Hypothesis Hbool : forall b, P (VBool b).
Hypothesis Hnum : forall q, P (VNum q).
Hypothesis Hstr : forall s, P (VStr s).
Hypothesis Harr : forall elems, Forall P elems -> P (VArr elems).
Hypothesis Hobj : forall m, Forall (fun kv => P (snd kv)) m -> P (VObj m).

Fixpoint Value_nested_ind (v : Value) : P v :=
  match v with
  | VNull => Hnull
  | VBool b => Hbool b
  | VNum q => Hnum q
  | VStr s => Hstr s
  | VArr elems =>
      Harr ((fix all (l : list Value) : Forall P l :=
               match l with
               | [] => Forall_nil P
               | x :: l' => Forall_cons x (Value_nested_ind x) (all l')
               end) elems)
  | VObj m =>
      Hobj ((fix all (l : entries) : Forall (fun kv => P (snd kv)) l :=
               match l with
               | [] => Forall_nil _
               | kv :: l' =>
                   @Forall_cons _ (fun kv => P (snd kv)) kv l'
                     (Value_nested_ind (snd kv)) (all l')
               end) m)
  end.

End ValueInduction.

(** A returned error comes with at least one conflict. *)
Definition errorHasConflict (o : outcome) : Prop :=
  match o with
  | Returns conflicts (Some _) => conflicts <> []
  | _ => True
  end.

(** What is returned extends the conflicts [acc] gathered before. *)
Definition extends (acc : list Conflict) (o : outcome) : Prop :=
  match o with
  | Returns conflicts _ => exists more, conflicts = acc ++ more
  | Panics _ => True
  end.

(** [rec] returns no error without a conflict on the pattern [s]. *)
Definition soundOn (rec : matcher) (s : Value) : Prop :=
  forall path x, errorHasConflict (rec path x s).

(** [rec] finds nothing when it matches [s] against itself. *)
Definition selfMatch (rec : matcher) (s : Value) : Prop :=
  forall path, rec path s s = Returns [] None.

(** ** The siblings of a failing element

    What precedes, in an array or in the actual map of an object, the
    element whose match returns an error. *)

(** The pattern of the elements when the pattern slice is of the wildcard
    form: [arrayOf], set with [isArrayOf] by [_matchSlice]. *)
Definition wildcardOf (vY : list Value) : option Value :=
  match vY with
  | [first; second] =>
      let (isMarker_, firstMarker) := getMarker first in
      if isMarker_ && String.eqb firstMarker "#array-of" then Some second else None
  | _ => None
  end.

(** [ySpecElem], the pattern for the element at index [i]; [None] where
    [vY.Index(i)] panics. *)
Definition patternAt (vY : list Value) (i : nat) : option Value :=
  match wildcardOf vY with
  | Some arrayOf => Some arrayOf
  | None => Index vY i
  end.

(** The error under the wrappers of the loops. *)
Fixpoint rootCause (e : error) : error :=
  match e with
  | ErrMapElement _ _ e' | ErrMapElementSpec _ e' | ErrSliceElement _ e' => rootCause e'
  | _ => e
  end.

(** The elements [pre] of a slice, the first at index [i], each matched
    against its pattern without an error; [earlier] holds the conflicts of
    each, in the order of the elements. *)
Inductive sliceSiblings (rec : matcher) (path : string)
  (patternOf : nat -> option Value) :
  nat -> list Value -> list (list Conflict) -> Prop :=
| sliceSiblings_nil i : sliceSiblings rec path patternOf i [] []
| sliceSiblings_cons i xElem pre ySpecElem itemConflicts earlier :
    patternOf i = Some ySpecElem ->
    rec (path ++ "[" ++ Sprint_int i ++ "]")%string xElem ySpecElem =
    Returns itemConflicts None ->
    sliceSiblings rec path patternOf (S i) pre earlier ->
    sliceSiblings rec path patternOf i (xElem :: pre) (itemConflicts :: earlier).

(** The entries [pre] of the actual map, each skipped (its key is not in the
    pattern) or matched against the pattern of its key without an error;
    [earlier] holds the conflicts of each, in the order of the entries. *)
Inductive mapSiblings (rec : matcher) (path : string) (vY : entries) :
  entries -> list (list Conflict) -> Prop :=
| mapSiblings_nil : mapSiblings rec path vY [] []
| mapSiblings_skip key value pre earlier :
    MapIndex vY key = None ->
    mapSiblings rec path vY pre earlier ->
    mapSiblings rec path vY ((key, value) :: pre) ([] :: earlier)
| mapSiblings_cons key value pre ySpecValue itemConflicts earlier :
    MapIndex vY key = Some ySpecValue ->
    rec (path ++ "/" ++ key)%string value ySpecValue = Returns itemConflicts None ->
    mapSiblings rec path vY pre earlier ->
    mapSiblings rec path vY ((key, value) :: pre) (itemConflicts :: earlier).

(** ** The loops as lists of steps

    What a loop of a container matcher does in one round: it calls [_match]
    on an item and wraps its error, or appends a conflict of its own, or
    panics on an index out of range.  [run] goes through such rounds as the
    loops do. *)
Inductive step : Type :=
| Item (item : outcome) (wrap : error -> error)
| Report (c : Conflict)
| Stop (p : panic).

Fixpoint run (steps : list step) (conflicts : list Conflict) : outcome :=
  match steps with
  | [] => Returns conflicts None
  | Item item wrap :: steps' => afterItem item conflicts wrap (run steps')
  | Report c :: steps' => run steps' (conflicts ++ [c])
  | Stop p :: _ => Panics p
  end.

Section Steps.

Variable rec : matcher.
Variable path : string.

Fixpoint sliceSteps (isArrayOf : bool) (arrayOf : Value) (vY : list Value)
  (i : nat) (rest : list Value) : list step :=
  match rest with
  | [] => []
  | xElem :: rest' =>
      match (if isArrayOf then Some arrayOf else Index vY i) with
      | None => Stop (IndexOutOfRange i (length vY))
      | Some ySpecElem =>
          Item (rec (path ++ "[" ++ Sprint_int i ++ "]")%string xElem ySpecElem)
            (ErrSliceElement i)
      end :: sliceSteps isArrayOf arrayOf vY (S i) rest'
  end.

Definition objectStep (vY : entries) (kv : string * Value) : list step :=
  match MapIndex vY (fst kv) with
  | None => []
  | Some ySpecValue =>
      [Item (rec (path ++ "/" ++ fst kv)%string (snd kv) ySpecValue)
         (ErrMapElement path (fst kv))]
  end.

Definition specStep (vX : entries) (kv : string * Value) : list step :=
  let xValue := MapIndex vX (fst kv) in
  let possibleConflict :=
    mkConflict (path ++ "/" ++ fst kv)%string (snd kv) (Printed xValue) None in
  let (isMarker_, marker) := getMarker (snd kv) in
  if isMarker_ && String.eqb marker "#notpresent" then
    match xValue with Some _ => [Report possibleConflict] | None => [] end
  else if isMarker_ && String.eqb marker presentMarker then
    match xValue with None => [Report possibleConflict] | Some _ => [] end
  else if negb (isMarker (snd kv) ignoreMarker) then
    match xValue with
    | None => [Report possibleConflict]
    | Some xv =>
        [Item (rec (path ++ "/" ++ fst kv)%string xv (snd kv)) (ErrMapElementSpec (fst kv))]
    end
  else [].

End Steps.

(** The errors of the markers, bare or wrapped by the loops. *)
Fixpoint markerError (e : error) : bool :=
  match e with
  | ErrRegexArity | ErrRegexInvalid _ | ErrUnsupportedPattern _ => true
  | ErrMapElement _ _ e' | ErrMapElementSpec _ e' | ErrSliceElement _ e' => markerError e'
  | _ => false
  end.

(** The conflict [c] is at [path] or below it, and holds no error. *)
Definition under (path : string) (c : Conflict) : Prop :=
  (exists suffix, Path c = (path ++ suffix)%string) /\ Error c = None.

(** An outcome whose conflicts are all [P] and whose error, if any, is [E]. *)
Definition outcomeOf (P : Conflict -> Prop) (E : error -> Prop) (o : outcome) : Prop :=
  match o with
  | Returns conflicts err =>
      Forall P conflicts /\ match err with Some e => E e | None => True end
  | Panics _ => True
  end.

(** An outcome that is no panic. *)
Definition returns (o : outcome) : Prop :=
  match o with Returns _ _ => True | Panics _ => False end.

(** A pattern in which every array of two elements is of the wildcard form
    [["#array-of", p]]. *)
#[warnings="-register-all"]
Inductive pairFree : Value -> Prop :=
| pairFree_null : pairFree VNull
| pairFree_bool b : pairFree (VBool b)
| pairFree_num q : pairFree (VNum q)
| pairFree_str s : pairFree (VStr s)
| pairFree_arr elems :
    Forall pairFree elems ->
    (length elems = 2 -> exists p, elems = [VStr "#array-of"; p]) ->
    pairFree (VArr elems)
| pairFree_obj m : Forall (fun kv => pairFree (snd kv)) m -> pairFree (VObj m).

(** A round that adds no conflict and returns no error. *)
Definition cleanStep (s : step) : Prop :=
  match s with
  | Item item _ => item = Returns [] None
  | _ => False
  end.

(** A round whose conflicts are all [P] and whose error, if any, is [E],
    also once wrapped. *)
Definition stepOf (P : Conflict -> Prop) (E : error -> Prop) (s : step) : Prop :=
  match s with
  | Item item wrap => outcomeOf P E item /\ forall e, E e -> E (wrap e)
  | Report c => P c
  | Stop _ => True
  end.

(** A round that does not panic. *)
Definition stepReturns (s : step) : Prop :=
  match s with
  | Item item _ => returns item
  | Report _ => True
  | Stop _ => False
  end.

(** Two values that differ in the order of the entries of their maps only:
    the maps have the same keys, each once, with values that differ so. *)
#[warnings="-register-all"]
Inductive sameValue : Value -> Value -> Prop :=
| same_null : sameValue VNull VNull
| same_bool b : sameValue (VBool b) (VBool b)
| same_num q : sameValue (VNum q) (VNum q)
| same_str s : sameValue (VStr s) (VStr s)
| same_arr xs ys : Forall2 sameValue xs ys -> sameValue (VArr xs) (VArr ys)
| same_obj m m' :
    NoDup (keys m) -> NoDup (keys m') ->
    (forall key, MapIndex m key = None <-> MapIndex m' key = None) ->
    (forall key v v', MapIndex m key = Some v -> MapIndex m' key = Some v' ->
                      sameValue v v') ->
    sameValue (VObj m) (VObj m').

(** An error of a marker. *)
Definition fromMarker (e : error) : Prop := markerError e = true.


(** The outcomes of [rec] for the pattern [s]: conflicts that are [P] of the
    path, and errors that are [E]. *)
Definition keptOn (P : string -> Conflict -> Prop) (E : error -> Prop)
  (rec : matcher) (s : Value) : Prop :=
  forall path x, outcomeOf (P path) E (rec path x s).

(** [rec] does not panic on the pattern [s]. *)
Definition returnsOn (rec : matcher) (s : Value) : Prop :=
  forall path x, returns (rec path x s).

(** ** [_match] is the body of the source *)

Lemma withMapIndex_MapIndex A (found : Value -> A) missing key m :
  withMapIndex found missing key m =
  match MapIndex m key with Some v => found v | None => missing end.
Proof.
  induction m as [|[k v] m IH]; simpl; [reflexivity|].
  destruct (String.eqb k key); auto.
Qed.

Lemma withIndex_Index A (found : Value -> A) missing l : forall i,
  withIndex found missing i l =
  match Index l i with Some v => found v | None => missing end.
Proof.
  induction l as [|v l IH]; intros [|i]; simpl; auto.
Qed.

Lemma afterItem_ext item conflicts wrap next1 next2 :
  (forall c, next1 c = next2 c) ->
  afterItem item conflicts wrap next1 = afterItem item conflicts wrap next2.
Proof.
  intros H. destruct item as [cs [e|]|p]; simpl; auto.
Qed.

Lemma sliceLoopK_sliceLoop rec path (isArrayOf : bool) arrayOf vY
  (specAt : nat -> (Value -> outcome) -> outcome) :
  (forall i k, specAt i k =
     match (if isArrayOf then Some arrayOf else Index vY i) with
     | None => Panics (IndexOutOfRange i (length vY))
     | Some ySpecElem => k ySpecElem
     end) ->
  forall rest i conflicts,
    sliceLoopK rec path specAt i rest conflicts =
    sliceLoop rec path isArrayOf arrayOf vY i rest conflicts.
Proof.
  intros Hsel. induction rest as [|xElem rest IH]; intros i conflicts; simpl.
  - reflexivity.
  - rewrite Hsel.
    destruct (if isArrayOf then Some arrayOf else Index vY i); [|reflexivity].
    apply afterItem_ext. intros c. apply IH.
Qed.

Lemma objectLoopK_objectLoop rec path vY : forall iterX conflicts,
  objectLoopK rec path vY iterX conflicts = objectLoop rec path vY iterX conflicts.
Proof.
  induction iterX as [|[key value] iterX IH]; intros conflicts; simpl.
  - reflexivity.
  - rewrite withMapIndex_MapIndex.
    destruct (MapIndex vY key); [|apply IH].
    apply afterItem_ext. intros c. apply IH.
Qed.

Lemma _match_unfold lib path x spec :
  _match lib path x spec = _match_body lib (_match lib) path x spec.
Proof.
  destruct spec as [|b|q|s|vY|vY]; try reflexivity.
  - (* slice *)
    unfold _match_body. simpl.
    destruct x as [|b|q|s|vX|vX]; try reflexivity.
    simpl.
    assert (Helem : sliceLoopK (_match lib) path
              (fun i (k : Value -> outcome) =>
                 withIndex k (Panics (IndexOutOfRange i (length vY))) i vY)
              0 vX [] = sliceLoop (_match lib) path false VNull vY 0 vX []).
    { apply sliceLoopK_sliceLoop. intros i k. apply withIndex_Index. }
    destruct vY as [|first [|second [|third vY]]]; simpl in *;
      try (rewrite Helem; reflexivity).
    destruct (getMarker first) as [isMarker_ firstMarker].
    destruct (isMarker_ && String.eqb firstMarker "#array-of").
    + apply sliceLoopK_sliceLoop. intros; reflexivity.
    + exact Helem.
  - (* map *)
    unfold _match_body. simpl.
    destruct x as [|b|q|s|vX|vX]; try reflexivity.
    simpl. unfold _matchMapCheckIteratingObject, _matchMapCheckIteratingSpec.
    rewrite objectLoopK_objectLoop. reflexivity.
Qed.


(** ** The array matcher and the length of the pattern *)

(** With a pattern of another length than two, a length mismatch gives the one
    conflict of the whole array. *)
Lemma _matchSlice_length_mismatch rec path vX vY :
  length vY <> 2 -> length vX <> length vY ->
  _matchSlice rec path (VArr vX) (VArr vY) =
  Returns [mkConflict path (VArr vY) (Got (VArr vX)) None] None.
Proof.
  intros H2 Hlen. unfold _matchSlice.
  destruct (Nat.eqb_spec (length vY) 2) as [E|_]; [contradiction|].
  destruct (Nat.eqb_spec (length vX) (length vY)) as [E|_]; [contradiction|].
  reflexivity.
Qed.

(** C1, which the code does not meet: a length that differs from the
    pattern's should give the one conflict of the whole array, but a pattern
    of two elements that is not the wildcard form skips the length check, and
    the actual array [[1]] matched against the pattern [[1, 2]] returns no
    conflict at all. *)
Theorem C1_two_element_pattern_skips_length_check (lib : GoLib) (path : string) :
  _match lib path (VArr [VNum 1]) (VArr [VNum 1; VNum 2]) = Returns [] None.
Proof. reflexivity. Qed.

(** C2, which the code does not meet: every index the element-wise loop
    visits should be an index of the pattern, but with the two-element
    pattern [[1, 2]] and the actual array [[1, 2, 3]] the loop reaches index
    2, and [vY.Index(2)] panics. *)
Theorem C2_pattern_index_out_of_range (lib : GoLib) (path : string) :
  _match lib path (VArr [VNum 1; VNum 2; VNum 3]) (VArr [VNum 1; VNum 2]) =
  Panics (IndexOutOfRange 2 2).
Proof. reflexivity. Qed.

(** The same two inputs, through [JSONMatches]. *)
Example JSONMatches_short_array :
  JSONMatches fragmentLib "[1]" "[1,2]" = Returns [] None.
Proof. reflexivity. Qed.

Example JSONMatches_long_array :
  JSONMatches fragmentLib "[1,2,3]" "[1,2]" = Panics (IndexOutOfRange 2 2).
Proof. reflexivity. Qed.

(** ** The two phases of the object matcher *)

(** C3: when the first phase of [_matchMap] (the loop over the keys of the
    actual object) returns at least one conflict, [_matchMap] returns exactly
    what that phase returned, and the second phase has no part in the result;
    when it returns no conflict, the result is that of the second phase. *)
Theorem C3_second_phase_only_after_clean_first_phase
  (rec : matcher) (path : string) (vX vY : entries)
  (conflicts : list Conflict) (err : option error)
  (Hphase1 : _matchMapCheckIteratingObject rec path vX vY = Returns conflicts err) :
  (conflicts <> [] ->
   _matchMap rec path (VObj vX) (VObj vY) = Returns conflicts err) /\
  (conflicts = [] ->
   _matchMap rec path (VObj vX) (VObj vY) = _matchMapCheckIteratingSpec rec path vX vY).
Proof.
  unfold _matchMap. rewrite Hphase1. split; intros H.
  - destruct conflicts; [contradiction | reflexivity].
  - subst conflicts. reflexivity.
Qed.

(** The missing key [c], which the second phase alone reports, is not in
    what [_matchMap] returns once the first phase has found the conflict
    at [a]. *)
Lemma C3_witness :
  _matchMapCheckIteratingObject (_match fragmentLib) "/"
    [("a", VNum 1); ("b", VNum 2)] [("a", VNum 3); ("c", VStr "#present")] =
  Returns [mkConflict "//a" (VNum 3) (Got (VNum 1)) None] None /\
  _matchMapCheckIteratingSpec (_match fragmentLib) "/"
    [("a", VNum 1); ("b", VNum 2)] [("a", VNum 3); ("c", VStr "#present")] =
  Returns [mkConflict "//a" (VNum 3) (Got (VNum 1)) None;
           mkConflict "//c" (VStr "#present") (Printed None) None] None /\
  _matchMap (_match fragmentLib) "/"
    (VObj [("a", VNum 1); ("b", VNum 2)]) (VObj [("a", VNum 3); ("c", VStr "#present")]) =
  Returns [mkConflict "//a" (VNum 3) (Got (VNum 1)) None] None.
Proof.
  split; [reflexivity|]. split; [reflexivity|].
  apply (@C3_second_phase_only_after_clean_first_phase
           (_match fragmentLib) "/"
           [("a", VNum 1); ("b", VNum 2)] [("a", VNum 3); ("c", VStr "#present")]
           [mkConflict "//a" (VNum 3) (Got (VNum 1)) None] None).
  - reflexivity.
  - discriminate.
Defined.

(** ** Markers *)

Lemma SplitN2_space_free s :
  ~ In " "%char (list_ascii_of_string s) -> SplitN2 s = [s].
Proof.
  unfold SplitN2.
  assert (H : ~ In " "%char (list_ascii_of_string s) -> cutSpace s = None).
  { induction s as [|c s IH]; simpl; intros Hn; [reflexivity|].
    destruct (Ascii.eqb_spec c " "%char) as [->|_]; [exfalso; apply Hn; now left|].
    rewrite IH; [reflexivity|]. intros Hin. apply Hn. now right. }
  intros Hn. now rewrite H.
Qed.

Lemma SplitN2_at_first_space name rest :
  ~ In " "%char (list_ascii_of_string name) ->
  SplitN2 (name ++ String " " rest) = [name; rest].
Proof.
  unfold SplitN2. intros Hn.
  assert (H : cutSpace (name ++ String " " rest) = Some (name, rest)).
  { induction name as [|c name IH]; simpl in *; [reflexivity|].
    destruct (Ascii.eqb_spec c " "%char) as [->|_]; [exfalso; apply Hn; now left|].
    rewrite IH; [reflexivity|]. intros Hin. apply Hn. now right. }
  now rewrite H.
Qed.

(** The [#regex] case of [_matchWithMarker], for an actual value that is not
    [nil]. *)
Lemma _matchWithMarker_regex lib path x marker args :
  x <> VNull -> SplitN2 marker = "#regex" :: args ->
  _matchWithMarker lib path x marker =
  let possibleConflict := mkConflict path (VStr marker) (Got x) None in
  match args with
  | [arg] =>
      match regexp_Compile lib arg with
      | inr err => Returns [possibleConflict] (Some (ErrRegexInvalid err))
      | inl r =>
          match x with
          | VStr xString =>
              if MatchString lib r xString then Returns [] None
              else Returns [possibleConflict] None
          | _ => Returns [possibleConflict] None
          end
      end
  | _ => Returns [possibleConflict] (Some ErrRegexArity)
  end.
Proof.
  intros Hx Hsplit. unfold _matchWithMarker. rewrite Hsplit.
  destruct x; try contradiction; reflexivity.
Qed.

(** C4 (as the code has it): for every actual value that is not null, [#regex]
    without an argument, or with an argument that does not compile, yields
    the one conflict of the marker together with an error. *)
Theorem C4_regex_bad_argument (lib : GoLib) (path : string) (x : Value) (marker : string)
  (Hx : x <> VNull) :
  (SplitN2 marker = ["#regex"] ->
   _matchWithMarker lib path x marker =
   Returns [mkConflict path (VStr marker) (Got x) None] (Some ErrRegexArity)) /\
  (forall arg e,
     SplitN2 marker = ["#regex"; arg] -> regexp_Compile lib arg = inr e ->
     _matchWithMarker lib path x marker =
     Returns [mkConflict path (VStr marker) (Got x) None] (Some (ErrRegexInvalid e))).
Proof.
  split.
  - intros Hs. now rewrite (@_matchWithMarker_regex lib path x marker [] Hx Hs).
  - intros arg e Hs Hc. rewrite (@_matchWithMarker_regex lib path x marker [arg] Hx Hs).
    simpl. now rewrite Hc.
Qed.

Lemma C4_witness :
  VStr "a" <> VNull /\
  _matchWithMarker fragmentLib "/" (VStr "a") "#regex [" =
  Returns [mkConflict "/" (VStr "#regex [") (Got (VStr "a")) None]
    (Some (ErrRegexInvalid (ErrLib "error parsing regexp"))).
Proof.
  split; [discriminate|].
  apply (proj2 (@C4_regex_bad_argument fragmentLib "/" (VStr "a") "#regex ["
                  ltac:(discriminate)) "[" (ErrLib "error parsing regexp"));
    reflexivity.
Defined.

(** C4 fails for the null actual value: [#regex] without its argument, or
    with one that does not compile, gives the conflict and no error. *)
Lemma C4_counterexample :
  _matchWithMarker fragmentLib "/" VNull "#regex" =
  Returns [mkConflict "/" (VStr "#regex") (Got VNull) None] None /\
  JSONMatches fragmentLib "null" (quoted "#regex [") =
  Returns [mkConflict "/" (VStr "#regex [") (Got VNull) None] None.
Proof. split; reflexivity. Qed.

(** C5 (as the code has it): for every actual value that is not null, a
    marker whose name (the text before its first space) is none of the
    supported names yields the one conflict of the marker and the error that
    reports the marker as unsupported. *)
Theorem C5_unsupported_marker (lib : GoLib) (path : string) (x : Value)
  (marker name : string) (args : list string)
  (Hx : x <> VNull)
  (Hsplit : SplitN2 marker = name :: args)
  (Hname : ~ In name supportedMarkers) :
  _matchWithMarker lib path x marker =
  Returns [mkConflict path (VStr marker) (Got x) None]
    (Some (ErrUnsupportedPattern marker)).
Proof.
  unfold _matchWithMarker. rewrite Hsplit.
  assert (Hnil : isNil x = false) by (destruct x; [contradiction|reflexivity..]).
  assert (Hvalid : IsValid x = true) by (destruct x; [contradiction|reflexivity..]).
  rewrite Hnil, Hvalid. cbn [andb negb].
  unfold ignoreMarker, nullMarker, presentMarker.
  repeat match goal with
  | |- context [String.eqb name ?s] =>
      destruct (String.eqb_spec name s) as [->|_];
      [exfalso; apply Hname; unfold supportedMarkers; simpl; tauto|]
  end.
  reflexivity.
Qed.

Lemma C5_witness :
  VNum 30 <> VNull /\ SplitN2 "#integer x" = ["#integer"; "x"] /\
  ~ In "#integer" supportedMarkers /\
  _matchWithMarker fragmentLib "/age" (VNum 30) "#integer x" =
  Returns [mkConflict "/age" (VStr "#integer x") (Got (VNum 30)) None]
    (Some (ErrUnsupportedPattern "#integer x")).
Proof.
  assert (Hx : VNum 30 <> VNull) by discriminate.
  assert (Hname : ~ In "#integer" supportedMarkers).
  { unfold supportedMarkers. simpl. intros H.
    repeat (destruct H as [H|H]; [discriminate H|]). exact H. }
  split; [exact Hx|]. split; [reflexivity|]. split; [exact Hname|].
  exact (@C5_unsupported_marker fragmentLib "/age" (VNum 30) "#integer x" "#integer"
           ["x"] Hx eq_refl Hname).
Defined.

(** C5 fails for the null actual value: an unsupported marker gives the
    conflict and no error. *)
Lemma C5_counterexample :
  _matchWithMarker fragmentLib "/" VNull "#integer" =
  Returns [mkConflict "/" (VStr "#integer") (Got VNull) None] None /\
  JSONMatches fragmentLib "null" (quoted "#integer") =
  Returns [mkConflict "/" (VStr "#integer") (Got VNull) None] None.
Proof. split; reflexivity. Qed.

(** C9 (as the code has it): the marker is cut at its first space character
    (U+0020) only: the name is what precedes it and the argument all that
    follows it, further spaces included; a marker without a space has no
    argument; and of a marker [#regex], a space and a remainder, the whole
    remainder is what is compiled. *)
Theorem C9_marker_cut_at_first_space :
  (forall name rest,
     ~ In " "%char (list_ascii_of_string name) ->
     SplitN2 (name ++ String " " rest) = [name; rest]) /\
  (forall marker,
     ~ In " "%char (list_ascii_of_string marker) -> SplitN2 marker = [marker]) /\
  (forall lib path x rest,
     x <> VNull ->
     _matchWithMarker lib path x ("#regex " ++ rest) =
     let possibleConflict := mkConflict path (VStr ("#regex " ++ rest)) (Got x) None in
     match regexp_Compile lib rest with
     | inr err => Returns [possibleConflict] (Some (ErrRegexInvalid err))
     | inl r =>
         match x with
         | VStr xString =>
             if MatchString lib r xString then Returns [] None
             else Returns [possibleConflict] None
         | _ => Returns [possibleConflict] None
         end
     end).
Proof.
  split; [exact SplitN2_at_first_space|].
  split; [exact SplitN2_space_free|].
  intros lib path x rest Hx.
  exact (@_matchWithMarker_regex lib path x ("#regex " ++ rest) [rest] Hx eq_refl).
Qed.

Lemma C9_witness :
  _matchWithMarker fragmentLib "/" (VStr "it is a b c") "#regex a b" = Returns [] None.
Proof.
  exact (proj2 (proj2 C9_marker_cut_at_first_space) fragmentLib "/"
           (VStr "it is a b c") "a b" ltac:(discriminate)).
Defined.

(** C9 fails for a whitespace character other than the space: a tab does not
    cut the marker, so [#regex], a tab and [a] is one name, which is not a
    supported one. *)
Lemma C9_counterexample :
  SplitN2 ("#regex" ++ tab ++ "a") = ["#regex" ++ tab ++ "a"]%string /\
  _matchWithMarker fragmentLib "/" (VStr "a") ("#regex" ++ tab ++ "a") =
  Returns [mkConflict "/" (VStr ("#regex" ++ tab ++ "a")) (Got (VStr "a")) None]
    (Some (ErrUnsupportedPattern ("#regex" ++ tab ++ "a"))).
Proof. split; reflexivity. Qed.

(** ** The entry point *)

(** C8: when the actual bytes or the pattern bytes do not decode,
    [JSONMatches] returns one conflict, at path [/], that carries the decode
    error, and an error that wraps it. *)
Theorem C8_malformed_input (lib : GoLib) (j jPatternSpecifier : string)
  (Hbad : (exists e, json_Unmarshal lib j = inr e) \/
          (exists e, json_Unmarshal lib jPatternSpecifier = inr e)) :
  exists e wrapped,
    JSONMatches lib j jPatternSpecifier =
    Returns [mkConflict "/" VNull (Got VNull) (Some e)] (Some wrapped) /\
    ((json_Unmarshal lib j = inr e /\ wrapped = ErrUnmarshalLeft e) \/
     (json_Unmarshal lib jPatternSpecifier = inr e /\ wrapped = ErrUnmarshalPattern e)).
Proof.
  unfold JSONMatches.
  destruct (json_Unmarshal lib j) as [jAny|e] eqn:Hj.
  - destruct Hbad as [[e He]|[e He]]; [discriminate He|].
    rewrite He. exists e, (ErrUnmarshalPattern e). split; [reflexivity|].
    right. split; reflexivity.
  - exists e, (ErrUnmarshalLeft e). split; [reflexivity|].
    left. split; reflexivity.
Qed.

Lemma C8_witness :
  exists e wrapped,
    JSONMatches fragmentLib "{bad" "1" =
    Returns [mkConflict "/" VNull (Got VNull) (Some e)] (Some wrapped) /\
    ((json_Unmarshal fragmentLib "{bad" = inr e /\ wrapped = ErrUnmarshalLeft e) \/
     (json_Unmarshal fragmentLib "1" = inr e /\ wrapped = ErrUnmarshalPattern e)).
Proof.
  apply C8_malformed_input. left.
  exists (ErrLib "invalid character or unexpected end of JSON input"). reflexivity.
Defined.

Lemma fold_left_stripRound conflicts : forall acc,
  fold_left stripRound conflicts acc = acc ++ List.map stripSlash conflicts.
Proof.
  induction conflicts as [|c conflicts IH]; intros acc; simpl.
  - now rewrite app_nil_r.
  - rewrite IH. unfold stripRound. now rewrite <- app_assoc.
Qed.

Lemma stripSlash_path c :
  (HasPrefix (Path c) "//" = true ->
   Path c = String "/" (Path (stripSlash c)) /\
   Expected (stripSlash c) = Expected c /\ Actual (stripSlash c) = Actual c /\
   Error (stripSlash c) = Error c) /\
  (HasPrefix (Path c) "//" = false -> stripSlash c = c) /\
  (HasPrefix (Path (stripSlash c)) "//" = HasPrefix (Path c) "///").
Proof.
  unfold stripSlash. destruct c as [p ex ac er].
  destruct p as [|c1 [|c2 [|c3 p]]];
    cbn [HasPrefix dropFirst Path Expected Actual Error andb];
    repeat match goal with
    | |- context [Ascii.eqb "/" ?c] =>
        destruct (Ascii.eqb_spec "/"%char c); subst;
        cbn [HasPrefix dropFirst Path Expected Actual Error andb]
    end;
    repeat split; intros;
    cbn [HasPrefix dropFirst Path Expected Actual Error andb] in *;
    try rewrite Ascii.eqb_refl;
    first [reflexivity | congruence].
Qed.

(** C10 (as the code has it): [JSONMatches] returns the conflicts of
    [_match] in their order, each path that begins with [//] without its
    first slash and every other conflict as it is; a returned path begins
    with [//] exactly when the path [_match] produced begins with [///]. *)
Theorem C10_one_leading_slash_stripped (lib : GoLib) (j jPatternSpecifier : string)
  (jAny patternSpecAny : Value) (conflicts : list Conflict) (err : option error)
  (Hj : json_Unmarshal lib j = inl jAny)
  (Hp : json_Unmarshal lib jPatternSpecifier = inl patternSpecAny)
  (Hmatch : _match lib "/" jAny patternSpecAny = Returns conflicts err) :
  JSONMatches lib j jPatternSpecifier = Returns (List.map stripSlash conflicts) err /\
  forall c,
    (HasPrefix (Path c) "//" = true ->
     Path c = String "/" (Path (stripSlash c)) /\
     Expected (stripSlash c) = Expected c /\ Actual (stripSlash c) = Actual c /\
     Error (stripSlash c) = Error c) /\
    (HasPrefix (Path c) "//" = false -> stripSlash c = c) /\
    (HasPrefix (Path (stripSlash c)) "//" = HasPrefix (Path c) "///").
Proof.
  split; [|exact stripSlash_path].
  unfold JSONMatches. rewrite Hj, Hp, Hmatch.
  now rewrite fold_left_stripRound.
Qed.

Lemma C10_witness :
  JSONMatches fragmentLib ("{" ++ quoted "age" ++ ":30}") ("{" ++ quoted "age" ++ ":31}") =
  Returns [mkConflict "/age" (VNum 31) (Got (VNum 30)) None] None.
Proof.
  exact (proj1 (@C10_one_leading_slash_stripped fragmentLib
                  ("{" ++ quoted "age" ++ ":30}") ("{" ++ quoted "age" ++ ":31}")
                  (VObj [("age", VNum 30)]) (VObj [("age", VNum 31)])
                  [mkConflict "//age" (VNum 31) (Got (VNum 30)) None] None
                  eq_refl eq_refl eq_refl)).
Defined.

(** C10 fails when a key itself begins with a slash: for the actual
    [{"/a":1}] and the pattern [{"/a":2}] the path produced is [///a] and the
    path returned is [//a]. *)
Lemma C10_counterexample :
  _match fragmentLib "/" (VObj [("/a", VNum 1)]) (VObj [("/a", VNum 2)]) =
  Returns [mkConflict "///a" (VNum 2) (Got (VNum 1)) None] None /\
  JSONMatches fragmentLib ("{" ++ quoted "/a" ++ ":1}") ("{" ++ quoted "/a" ++ ":2}") =
  Returns [mkConflict "//a" (VNum 2) (Got (VNum 1)) None] None.
Proof. split; reflexivity. Qed.


Lemma Index_In l : forall i v, Index l i = Some v -> In v l.
Proof.
  induction l as [|x l IH]; intros [|i] v H; simpl in *; try discriminate.
  - left. congruence.
  - right. eauto.
Qed.

Lemma MapIndex_In m key v : MapIndex m key = Some v -> In (key, v) m.
Proof.
  induction m as [|[k x] m IH]; simpl; [discriminate|].
  destruct (String.eqb_spec k key) as [->|_]; intros H.
  - left. congruence.
  - right. auto.
Qed.

Lemma MapIndex_NoDup m : NoDup (keys m) ->
  forall key v, In (key, v) m -> MapIndex m key = Some v.
Proof.
  induction m as [|[k x] m IH]; intros Hnd key v Hin; simpl in *; [contradiction|].
  inversion Hnd as [|k' ks Hnotin Hnd']; subst.
  destruct (String.eqb_spec k key) as [->|Hne].
  - destruct Hin as [Heq|Hin]; [congruence|].
    exfalso. apply Hnotin. unfold keys. apply in_map_iff. now exists (key, v).
  - destruct Hin as [Heq|Hin]; [congruence|]. now apply IH.
Qed.

(** ** Hard errors come with conflicts *)

Lemma _matchWithMarker_errorHasConflict lib path x marker :
  errorHasConflict (_matchWithMarker lib path x marker).
Proof.
  unfold _matchWithMarker.
  repeat match goal with
  | |- errorHasConflict (if ?b then _ else _) => destruct b
  | |- errorHasConflict (match ?t with _ => _ end) => destruct t
  | |- errorHasConflict (let _ := _ in _) => cbv zeta
  end; simpl; try exact I; discriminate.
Qed.

Lemma afterItem_errorHasConflict item conflicts wrap next :
  errorHasConflict item -> (forall c, errorHasConflict (next c)) ->
  errorHasConflict (afterItem item conflicts wrap next).
Proof.
  intros Hitem Hnext. destruct item as [cs [e|]|p]; simpl in *; auto.
  intros H. apply app_eq_nil in H. destruct H as [_ H]. auto.
Qed.

Lemma afterItem_extends item conflicts wrap next :
  (forall c, extends c (next c)) ->
  extends conflicts (afterItem item conflicts wrap next).
Proof.
  intros Hnext. destruct item as [cs [e|]|p]; simpl; auto.
  - now exists cs.
  - specialize (Hnext (conflicts ++ cs)).
    destruct (next (conflicts ++ cs)) as [cs' err|p]; simpl in *; auto.
    destruct Hnext as [more ->]. exists (cs ++ more). now rewrite app_assoc.
Qed.

Section LoopsKeepConflicts.

Variable rec : matcher.

Lemma sliceLoop_extends path isArrayOf arrayOf vY : forall rest i conflicts,
  extends conflicts (sliceLoop rec path isArrayOf arrayOf vY i rest conflicts).
Proof.
  induction rest as [|xElem rest IH]; intros i conflicts; simpl.
  - exists []. now rewrite app_nil_r.
  - destruct (if isArrayOf then Some arrayOf else Index vY i); [|exact I].
    apply afterItem_extends. intros c. apply IH.
Qed.

Lemma objectLoop_extends path vY : forall iterX conflicts,
  extends conflicts (objectLoop rec path vY iterX conflicts).
Proof.
  induction iterX as [|[key value] iterX IH]; intros conflicts; simpl.
  - exists []. now rewrite app_nil_r.
  - destruct (MapIndex vY key); [|apply IH].
    apply afterItem_extends. intros c. apply IH.
Qed.

Lemma extends_snoc conflicts c o :
  extends (conflicts ++ [c]) o -> extends conflicts o.
Proof.
  destruct o as [cs err|p]; simpl; auto.
  intros [more ->]. exists (c :: more). now rewrite <- app_assoc.
Qed.

Lemma specLoop_extends path vX : forall iterY conflicts,
  extends conflicts (specLoop rec path vX iterY conflicts).
Proof.
  induction iterY as [|[key ySpecValue] iterY IH]; intros conflicts; simpl.
  - exists []. now rewrite app_nil_r.
  - destruct (getMarker ySpecValue) as [isMarker_ marker].
    repeat match goal with
    | |- extends _ (if ?b then _ else _) => destruct b
    | |- extends _ (match ?t with _ => _ end) => destruct t
    end;
    first [ apply IH
          | eapply extends_snoc; apply IH
          | apply afterItem_extends; intros c; apply IH ].
Qed.

End LoopsKeepConflicts.

Section LoopsErrors.

Variable rec : matcher.


Lemma sliceLoop_errorHasConflict path isArrayOf arrayOf vY :
  (isArrayOf = true -> soundOn rec arrayOf) -> Forall (soundOn rec) vY ->
  forall rest i conflicts,
    errorHasConflict (sliceLoop rec path isArrayOf arrayOf vY i rest conflicts).
Proof.
  intros Hof HvY. induction rest as [|xElem rest IH]; intros i conflicts; simpl.
  - exact I.
  - destruct isArrayOf.
    + apply afterItem_errorHasConflict; [now apply Hof | intros c; apply IH].
    + destruct (Index vY i) as [ySpecElem|] eqn:Hi; [|exact I].
      apply afterItem_errorHasConflict; [|intros c; apply IH].
      apply Index_In in Hi. rewrite Forall_forall in HvY. now apply HvY.
Qed.

Lemma _matchSlice_errorHasConflict path x vY :
  Forall (soundOn rec) vY -> errorHasConflict (_matchSlice rec path x (VArr vY)).
Proof.
  intros HvY. unfold _matchSlice.
  destruct x as [| | | |vX|]; try (simpl; discriminate).
  assert (Helem : forall arrayOf,
            errorHasConflict (sliceLoop rec path false arrayOf vY 0 vX [])).
  { intros arrayOf. apply sliceLoop_errorHasConflict; [discriminate|assumption]. }
  destruct (length vY =? 2).
  - destruct (Index vY 0) as [first|]; [|destruct (Index vY 1); exact I].
    destruct (Index vY 1) as [second|] eqn:H1; [|exact I].
    destruct (getMarker first) as [isMarker_ firstMarker].
    destruct (isMarker_ && String.eqb firstMarker "#array-of"); [|apply Helem].
    apply sliceLoop_errorHasConflict; [|assumption].
    intros _. apply Index_In in H1. rewrite Forall_forall in HvY. now apply HvY.
  - destruct (negb (length vX =? length vY)); [exact I | apply Helem].
Qed.

Lemma objectLoop_errorHasConflict path vY :
  Forall (fun kv => soundOn rec (snd kv)) vY ->
  forall iterX conflicts, errorHasConflict (objectLoop rec path vY iterX conflicts).
Proof.
  intros HvY. induction iterX as [|[key value] iterX IH]; intros conflicts; simpl.
  - exact I.
  - destruct (MapIndex vY key) as [ySpecValue|] eqn:Hk; [|apply IH].
    apply afterItem_errorHasConflict; [|intros c; apply IH].
    apply MapIndex_In in Hk. rewrite Forall_forall in HvY. exact (HvY _ Hk _ _).
Qed.

Lemma specLoop_errorHasConflict path vX : forall iterY,
  Forall (fun kv => soundOn rec (snd kv)) iterY ->
  forall conflicts, errorHasConflict (specLoop rec path vX iterY conflicts).
Proof.
  induction iterY as [|[key ySpecValue] iterY IH]; intros HY conflicts; simpl.
  - exact I.
  - inversion HY as [|kv l Hhead Htail]; subst. simpl in Hhead.
    specialize (IH Htail).
    destruct (getMarker ySpecValue) as [isMarker_ marker].
    repeat match goal with
    | |- errorHasConflict (if ?b then _ else _) => destruct b
    | |- errorHasConflict (match ?t with _ => _ end) => destruct t
    end;
    first [ apply IH
          | apply afterItem_errorHasConflict; [apply Hhead | intros c; apply IH] ].
Qed.

Lemma _matchMap_errorHasConflict path x vY :
  Forall (fun kv => soundOn rec (snd kv)) vY ->
  errorHasConflict (_matchMap rec path x (VObj vY)).
Proof.
  intros HvY. unfold _matchMap.
  destruct x as [| | | | |vX]; try (simpl; discriminate).
  unfold _matchMapCheckIteratingObject, _matchMapCheckIteratingSpec.
  pose proof (objectLoop_errorHasConflict path HvY vX []) as H1.
  destruct (objectLoop rec path vY vX []) as [conflicts err|p]; [|exact I].
  destruct conflicts as [|c conflicts]; simpl.
  - now apply specLoop_errorHasConflict.
  - destruct err; [discriminate | exact I].
Qed.

End LoopsErrors.

Lemma _match_errorHasConflict lib : forall spec path x,
  errorHasConflict (_match lib path x spec).
Proof.
  induction spec as [|b|q|s|vY IH|vY IH] using Value_nested_ind;
    intros path x; rewrite _match_unfold; unfold _match_body.
  - simpl. exact I.
  - destruct x; simpl; try exact I.
    unfold _matchPrimitive. destruct (negb _); exact I.
  - destruct x; simpl; try exact I.
    unfold _matchPrimitive. destruct (negb _); exact I.
  - unfold getMarker. destruct (HasPrefix s "#"); simpl.
    + apply _matchWithMarker_errorHasConflict.
    + destruct x; simpl; try exact I.
      unfold _matchPrimitive. destruct (negb _); exact I.
  - destruct x as [| | | |vX|]; try exact I.
    exact (@_matchSlice_errorHasConflict (_match lib) path (VArr vX) vY IH).
  - destruct x as [| | | | |vX]; try exact I.
    exact (@_matchMap_errorHasConflict (_match lib) path (VObj vX) vY IH).
Qed.

Lemma JSONMatches_errorHasConflict lib j jPatternSpecifier :
  errorHasConflict (JSONMatches lib j jPatternSpecifier).
Proof.
  unfold JSONMatches.
  destruct (json_Unmarshal lib j) as [jAny|e]; [|simpl; discriminate].
  destruct (json_Unmarshal lib jPatternSpecifier) as [spec|e]; [|simpl; discriminate].
  pose proof (_match_errorHasConflict lib spec "/" jAny) as H.
  destruct (_match lib "/" jAny spec) as [conflicts [e|]|p]; simpl in *; auto.
  rewrite fold_left_stripRound. simpl.
  destruct conflicts; [contradiction | discriminate].
Qed.

(** *** Where an error comes from *)

Lemma sliceLoop_error (rec : matcher) path (isArrayOf : bool) arrayOf vY :
  forall rest i gathered conflicts e,
    sliceLoop rec path isArrayOf arrayOf vY i rest gathered = Returns conflicts (Some e) ->
    exists pre xElem post ySpecElem earlier itemConflicts e',
      rest = pre ++ xElem :: post /\
      sliceSiblings rec path
        (fun k => if isArrayOf then Some arrayOf else Index vY k) i pre earlier /\
      (if isArrayOf then Some arrayOf else Index vY (i + length pre)) = Some ySpecElem /\
      rec (path ++ "[" ++ Sprint_int (i + length pre) ++ "]")%string xElem ySpecElem =
      Returns itemConflicts (Some e') /\
      conflicts = gathered ++ concat earlier ++ itemConflicts /\
      e = ErrSliceElement (i + length pre) e'.
Proof.
  induction rest as [|x rest IH]; intros i gathered conflicts e H; cbn [sliceLoop] in H;
    [discriminate|].
  destruct (if isArrayOf then Some arrayOf else Index vY i) as [y|] eqn:Hy;
    [|discriminate].
  destruct (rec (path ++ "[" ++ Sprint_int i ++ "]")%string x y)
    as [cs [e0|]|p] eqn:Hitem; cbn [afterItem] in H; [| |discriminate].
  - injection H as <- <-.
    exists [], x, rest, y, [], cs, e0. cbn [length app concat].
    rewrite Nat.add_0_r. repeat split; try assumption. constructor.
  - apply IH in H.
    destruct H as [pre [xElem [post [y' [earlier [cs' [e' H]]]]]]].
    destruct H as [Hrest [Hsib [Hy' [Hfail [Hconf He]]]]].
    exists (x :: pre), xElem, post, y', (cs :: earlier), cs', e'.
    cbn [length app concat]. rewrite Nat.add_succ_r. cbn [Nat.add] in *.
    repeat split; try assumption.
    + now rewrite Hrest.
    + econstructor; eassumption.
    + rewrite Hconf. now rewrite <- !app_assoc.
Qed.

Lemma objectLoop_error (rec : matcher) path vY :
  forall iterX gathered conflicts e,
    objectLoop rec path vY iterX gathered = Returns conflicts (Some e) ->
    exists pre key value post ySpecValue earlier itemConflicts e',
      iterX = pre ++ (key, value) :: post /\
      mapSiblings rec path vY pre earlier /\
      MapIndex vY key = Some ySpecValue /\
      rec (path ++ "/" ++ key)%string value ySpecValue = Returns itemConflicts (Some e') /\
      conflicts = gathered ++ concat earlier ++ itemConflicts /\
      e = ErrMapElement path key e'.
Proof.
  induction iterX as [|[k v] iterX IH]; intros gathered conflicts e H;
    cbn [objectLoop] in H; [discriminate|].
  destruct (MapIndex vY k) as [y|] eqn:Hy.
  - destruct (rec (path ++ "/" ++ k)%string v y) as [cs [e0|]|p] eqn:Hitem;
      cbn [afterItem] in H; [| |discriminate].
    + injection H as <- <-.
      exists [], k, v, iterX, y, [], cs, e0. cbn [app concat].
      repeat split; try assumption. constructor.
    + apply IH in H.
      destruct H as [pre [key [value [post [y' [earlier [cs' [e' H]]]]]]]].
      destruct H as [Hrest [Hsib [Hy' [Hfail [Hconf He]]]]].
      exists ((k, v) :: pre), key, value, post, y', (cs :: earlier), cs', e'.
      cbn [app concat]. repeat split; try assumption.
      * now rewrite Hrest.
      * eapply mapSiblings_cons; eassumption.
      * rewrite Hconf. now rewrite <- !app_assoc.
  - apply IH in H.
    destruct H as [pre [key [value [post [y' [earlier [cs' [e' H]]]]]]]].
    destruct H as [Hrest [Hsib [Hy' [Hfail [Hconf He]]]]].
    exists ((k, v) :: pre), key, value, post, y', ([] :: earlier), cs', e'.
    cbn [app concat]. repeat split; try assumption.
    + now rewrite Hrest.
    + now apply mapSiblings_skip.
Qed.

(** With no conflict from the first phase and a pattern that holds each key
    once, every call of the second phase is one the first phase made, and
    so returns no error. *)
Lemma objectLoop_items (rec : matcher) path vY : forall iterX gathered,
  objectLoop rec path vY iterX gathered = Returns [] None ->
  forall key value ySpecValue,
    In (key, value) iterX -> MapIndex vY key = Some ySpecValue ->
    rec (path ++ "/" ++ key)%string value ySpecValue = Returns [] None.
Proof.
  induction iterX as [|[k v] iterX IH]; intros gathered H key value y Hin Hy;
    [contradiction|].
  cbn [objectLoop] in H.
  assert (Hnil : forall item next,
            (forall c, extends c (next c)) ->
            afterItem item gathered (ErrMapElement path k) next = Returns [] None ->
            item = Returns [] None /\ next [] = Returns [] None).
  { intros item next Hnext Ha.
    destruct item as [cs [e0|]|p]; cbn [afterItem] in Ha; try discriminate.
    pose proof (Hnext (gathered ++ cs)) as E. rewrite Ha in E.
    destruct E as [more E]. symmetry in E.
    apply app_eq_nil in E. destruct E as [E _].
    apply app_eq_nil in E. destruct E as [-> ->]. auto. }
  destruct Hin as [Heq|Hin].
  - injection Heq as -> ->. rewrite Hy in H.
    apply Hnil in H; [tauto|]. intros c. apply objectLoop_extends.
  - destruct (MapIndex vY k) as [y0|].
    + apply Hnil in H; [|intros c; apply objectLoop_extends].
      destruct H as [_ H]. exact (IH [] H key value y Hin Hy).
    + exact (IH gathered H key value y Hin Hy).
Qed.

Lemma specLoop_no_error (rec : matcher) path vX : forall iterY gathered,
  (forall key ySpecValue xv,
     In (key, ySpecValue) iterY -> MapIndex vX key = Some xv ->
     rec (path ++ "/" ++ key)%string xv ySpecValue = Returns [] None) ->
  exists conflicts, specLoop rec path vX iterY gathered = Returns conflicts None.
Proof.
  induction iterY as [|[key ySpecValue] iterY IH]; intros gathered H; cbn [specLoop].
  - eauto.
  - assert (IH' : forall g, exists conflicts,
              specLoop rec path vX iterY g = Returns conflicts None).
    { intros g. apply IH. intros k y xv Hin. apply H. now right. }
    destruct (getMarker ySpecValue) as [isMarker_ marker].
    destruct (MapIndex vX key) as [xv|] eqn:Hk.
    + rewrite (H key ySpecValue xv (or_introl eq_refl) Hk). cbn [afterItem].
      repeat match goal with |- context [if ?b then _ else _] => destruct b end;
        apply IH'.
    + repeat match goal with |- context [if ?b then _ else _] => destruct b end;
        apply IH'.
Qed.

Lemma _matchWithMarker_cases lib path x marker :
  _matchWithMarker lib path x marker = Returns [] None \/
  exists err,
    _matchWithMarker lib path x marker =
    Returns [mkConflict path (VStr marker) (Got x) None] err.
Proof.
  unfold _matchWithMarker.
  assert (Hparts : SplitN2 marker <> []).
  { unfold SplitN2. destruct (cutSpace marker) as [[before after]|]; discriminate. }
  destruct (SplitN2 marker) as [|name args]; [contradiction|].
  repeat match goal with
  | |- context [if ?b then _ else _] => destruct b
  | |- context [match ?t with _ => _ end] => destruct t
  end; first [left; reflexivity | right; eexists; reflexivity].
Qed.

Lemma _match_slices lib path vX vY :
  _match lib path (VArr vX) (VArr vY) = _matchSlice (_match lib) path (VArr vX) (VArr vY).
Proof. now rewrite _match_unfold. Qed.

Lemma _match_maps lib path vX vY :
  _match lib path (VObj vX) (VObj vY) = _matchMap (_match lib) path (VObj vX) (VObj vY).
Proof. now rewrite _match_unfold. Qed.

(** The error of an array: that of one of its elements, after which the
    list returned holds the conflicts of the elements before it, then the
    conflicts of that element. *)
Lemma _matchSlice_error (rec : matcher) path vX vY conflicts e :
  _matchSlice rec path (VArr vX) (VArr vY) = Returns conflicts (Some e) ->
  exists pre xElem post ySpecElem earlier itemConflicts e',
    vX = pre ++ xElem :: post /\
    sliceSiblings rec path (patternAt vY) 0 pre earlier /\
    patternAt vY (length pre) = Some ySpecElem /\
    rec (path ++ "[" ++ Sprint_int (length pre) ++ "]")%string xElem ySpecElem =
    Returns itemConflicts (Some e') /\
    conflicts = concat earlier ++ itemConflicts /\
    e = ErrSliceElement (length pre) e'.
Proof.
  unfold _matchSlice, patternAt, wildcardOf. intros H.
  destruct (Nat.eqb_spec (length vY) 2) as [H2|H2].
  - destruct vY as [|first [|second [|third vY]]]; try discriminate H2.
    cbn [Index] in H.
    destruct (getMarker first) as [isMarker_ firstMarker].
    destruct (isMarker_ && String.eqb firstMarker "#array-of");
      apply sliceLoop_error in H;
      destruct H as [pre [xElem [post [y [earlier [cs [e' H]]]]]]];
      exists pre, xElem, post, y, earlier, cs, e'; exact H.
  - destruct (negb (length vX =? length vY)); [discriminate|].
    apply sliceLoop_error in H.
    destruct H as [pre [xElem [post [y [earlier [cs [e' H]]]]]]].
    exists pre, xElem, post, y, earlier, cs, e'.
    destruct vY as [|first [|second [|third vY]]]; try exact H.
    now contradiction H2.
Qed.

(** The error of an object: that of one of the entries of the actual map,
    in the first phase. *)
Lemma _matchMap_error (rec : matcher) path vX vY conflicts e :
  (forall s, soundOn rec s) -> NoDup (keys vY) ->
  _matchMap rec path (VObj vX) (VObj vY) = Returns conflicts (Some e) ->
  exists pre key value post ySpecValue earlier itemConflicts e',
    vX = pre ++ (key, value) :: post /\
    mapSiblings rec path vY pre earlier /\
    MapIndex vY key = Some ySpecValue /\
    rec (path ++ "/" ++ key)%string value ySpecValue = Returns itemConflicts (Some e') /\
    conflicts = concat earlier ++ itemConflicts /\
    e = ErrMapElement path key e'.
Proof.
  intros Hsound HY. unfold _matchMap.
  unfold _matchMapCheckIteratingObject, _matchMapCheckIteratingSpec. intros H.
  pose proof (@objectLoop_errorHasConflict rec path vY
                ltac:(apply Forall_forall; intros kv _; apply Hsound) vX []) as Herr.
  destruct (objectLoop rec path vY vX []) as [c1 err1|p] eqn:H1; [|discriminate].
  destruct c1 as [|c c1]; cbn [length Nat.ltb Nat.leb] in H.
  - destruct err1 as [e1|]; [now contradiction Herr|].
    exfalso.
    destruct (@specLoop_no_error rec path vX vY []) as [cs Hcs].
    { intros key y xv Hin Hk.
      apply (@objectLoop_items rec path vY vX [] H1 key xv y).
      - now apply MapIndex_In.
      - now apply MapIndex_NoDup. }
    rewrite Hcs in H. discriminate.
  - injection H as Hc He. subst conflicts err1. apply objectLoop_error in H1. exact H1.
Qed.

(** An error of [_match] is that of a marker, of an array or of an
    object. *)
Lemma _match_error_source lib path x spec conflicts e :
  _match lib path x spec = Returns conflicts (Some e) ->
  (exists marker,
     spec = VStr marker /\
     conflicts = [mkConflict path (VStr marker) (Got x) None] /\
     _matchWithMarker lib path x marker = Returns conflicts (Some e)) \/
  (exists vX vY, x = VArr vX /\ spec = VArr vY) \/
  (exists vX vY, x = VObj vX /\ spec = VObj vY).
Proof.
  rewrite _match_unfold. unfold _match_body. intros H.
  assert (Hprim : forall y, _matchPrimitive path x y <> Returns conflicts (Some e)).
  { intros y. unfold _matchPrimitive. destruct (negb (DeepEqual x y)); intros E; discriminate E. }
  destruct spec as [|b|q|s|vY|vY].
  - discriminate H.
  - destruct x; try discriminate H. now apply Hprim in H.
  - destruct x; try discriminate H. now apply Hprim in H.
  - unfold getMarker in H. destruct (HasPrefix s "#").
    + cbn [IsValid KindOf reflect.Kind_eqb negb andb] in H.
      left. exists s. split; [reflexivity|].
      destruct (_matchWithMarker_cases lib path x s) as [Hc|[err Hc]];
        rewrite Hc in H; [discriminate H|].
      injection H as Hconf Herr. subst conflicts err. split; [reflexivity | exact Hc].
    + destruct x; try discriminate H. now apply Hprim in H.
  - destruct x as [| | | |vX|]; try discriminate H. right. left. eauto.
  - destruct x as [| | | | |vX]; try discriminate H. right. right. eauto.
Qed.

Lemma _matchWithMarker_rootCause lib path x marker conflicts e :
  _matchWithMarker lib path x marker = Returns conflicts (Some e) -> rootCause e = e.
Proof.
  assert (H : match _matchWithMarker lib path x marker with
              | Returns _ (Some e0) => rootCause e0 = e0
              | _ => True
              end).
  { set (Q := fun o : outcome =>
                match o with
                | Returns _ (Some e0) => rootCause e0 = e0
                | _ => True
                end).
    change (Q (_matchWithMarker lib path x marker)). unfold _matchWithMarker.
    repeat match goal with
    | |- Q (if ?b then _ else _) => destruct b
    | |- Q (match ?t with _ => _ end) => destruct t
    | |- Q (let _ := _ in _) => cbv zeta
    end; first [exact I | reflexivity]. }
  intros E. now rewrite E in H.
Qed.

Lemma specLoop_error (rec : matcher) path vX : forall iterY gathered conflicts e,
  specLoop rec path vX iterY gathered = Returns conflicts (Some e) ->
  exists front key ySpecValue xv itemConflicts e',
    In (key, ySpecValue) iterY /\
    MapIndex vX key = Some xv /\
    rec (path ++ "/" ++ key)%string xv ySpecValue = Returns itemConflicts (Some e') /\
    conflicts = front ++ itemConflicts /\
    e = ErrMapElementSpec key e'.
Proof.
  induction iterY as [|[key ySpecValue] iterY IH]; intros gathered conflicts e H;
    cbn [specLoop] in H; [discriminate|].
  assert (IH' : forall g,
            specLoop rec path vX iterY g = Returns conflicts (Some e) ->
            exists front key0 ySpecValue0 xv itemConflicts e',
              In (key0, ySpecValue0) ((key, ySpecValue) :: iterY) /\
              MapIndex vX key0 = Some xv /\
              rec (path ++ "/" ++ key0)%string xv ySpecValue0 =
              Returns itemConflicts (Some e') /\
              conflicts = front ++ itemConflicts /\
              e = ErrMapElementSpec key0 e').
  { intros g Hg. apply IH in Hg.
    destruct Hg as [front [k [y [xv [cs [e' [Hin Hrest]]]]]]].
    exists front, k, y, xv, cs, e'. split; [now right | exact Hrest]. }
  destruct (getMarker ySpecValue) as [isMarker_ marker].
  destruct (MapIndex vX key) as [xv|] eqn:Hk.
  - repeat match type of H with
    | context [if ?b then _ else _] => destruct b
    end; try (eapply IH'; eassumption).
    destruct (rec (path ++ "/" ++ key)%string xv ySpecValue) as [cs [e0|]|p] eqn:Hitem;
      cbn [afterItem] in H; [| |discriminate].
    + injection H as <- <-.
      exists gathered, key, ySpecValue, xv, cs, e0.
      repeat split; try assumption. now left.
    + eapply IH'; eassumption.
  - repeat match type of H with
    | context [if ?b then _ else _] => destruct b
    end; eapply IH'; eassumption.
Qed.

Lemma patternAt_In vY i y : patternAt vY i = Some y -> In y vY.
Proof.
  unfold patternAt, wildcardOf.
  destruct vY as [|first [|second [|third vY]]]; try apply Index_In.
  destruct (getMarker first) as [isMarker_ firstMarker].
  destruct (isMarker_ && String.eqb firstMarker "#array-of"); [|apply Index_In].
  intros H. injection H as <-. right. now left.
Qed.

(** The last conflict returned with an error is the one conflict of the
    marker that gave the error, at the path where it was evaluated. *)
Lemma _match_error_ends_at_failure lib : forall spec path x conflicts e,
  _match lib path x spec = Returns conflicts (Some e) ->
  exists front failPath failX marker,
    conflicts = front ++ [mkConflict failPath (VStr marker) (Got failX) None] /\
    _matchWithMarker lib failPath failX marker =
    Returns [mkConflict failPath (VStr marker) (Got failX) None] (Some (rootCause e)).
Proof.
  induction spec as [|b|q|s|vY IH|vY IH] using Value_nested_ind;
    intros path x conflicts e H;
    destruct (_match_error_source lib path x _ H)
      as [[marker [Hspec [Hconf Hmarker]]]|[[vX' [vY' [Hx Hspec]]]|[vX' [vY' [Hx Hspec]]]]];
    try discriminate Hspec.
  - injection Hspec as <-. subst conflicts.
    exists [], path, x, s. split; [reflexivity|].
    now rewrite (_matchWithMarker_rootCause lib path x s Hmarker).
  - injection Hspec as <-. subst x. rewrite _match_slices in H.
    apply _matchSlice_error in H.
    destruct H as [pre [xElem [post [y [earlier [cs [e' H]]]]]]].
    destruct H as [HvX [Hsib [Hy [Hfail [Hconf He]]]]].
    rewrite Forall_forall in IH.
    destruct (IH y (patternAt_In _ _ Hy) _ _ _ _ Hfail)
      as [front [failPath [failX [marker [Hcs Hm]]]]].
    exists (concat earlier ++ front), failPath, failX, marker. subst conflicts e cs.
    split; [now rewrite app_assoc | exact Hm].
  - injection Hspec as <-. subst x. rewrite _match_maps in H.
    unfold _matchMap, _matchMapCheckIteratingObject, _matchMapCheckIteratingSpec in H.
    rewrite Forall_forall in IH.
    assert (Hitem : forall front key value ySpecValue cs e',
              In (key, ySpecValue) vY ->
              _match lib (path ++ "/" ++ key)%string value ySpecValue =
              Returns cs (Some e') ->
              conflicts = front ++ cs -> rootCause e = rootCause e' ->
              exists front0 failPath failX marker,
                conflicts = front0 ++ [mkConflict failPath (VStr marker) (Got failX) None] /\
                _matchWithMarker lib failPath failX marker =
                Returns [mkConflict failPath (VStr marker) (Got failX) None]
                  (Some (rootCause e))).
    { intros front key value y cs e' Hin Hfail Hconf He.
      destruct (IH (key, y) Hin _ _ _ _ Hfail)
        as [front0 [failPath [failX [marker [Hcs Hm]]]]].
      exists (front ++ front0), failPath, failX, marker. subst conflicts cs.
      rewrite He. split; [now rewrite app_assoc | exact Hm]. }
    destruct (objectLoop (_match lib) path vY vX' []) as [c1 err1|p] eqn:H1;
      [|discriminate H].
    destruct (0 <? length c1).
    + injection H as Hc He. subst c1 err1. apply objectLoop_error in H1.
      destruct H1 as [pre [key [value [post [y [earlier [cs [e' H1]]]]]]]].
      destruct H1 as [HvX [Hsib [Hy [Hfail [Hconf He]]]]].
      apply (Hitem (concat earlier) key value y cs e'
               (MapIndex_In _ _ Hy) Hfail Hconf).
      now subst e.
    + apply specLoop_error in H.
      destruct H as [front [key [y [xv [cs [e' [Hin [Hk [Hfail [Hconf He]]]]]]]]]].
      apply (Hitem front key xv y cs e' Hin Hfail Hconf). now subst e.
Qed.

(** C6: a hard error comes with at least one conflict, from [JSONMatches] as
    from [_match]; each loop of the container matchers returns, with or
    without an error, the conflicts it had gathered before, followed by
    those it adds.  The error of [_match] is that of a marker, with the one
    conflict of the marker at the path, or that of an element of an array or
    of an entry of an object (whose pattern holds each key once): then the
    list returned is made of the conflicts of the elements matched before
    it, each list whole and in the order of the elements, followed by the
    conflicts of the failing element, and the error is that of the element,
    wrapped.  The loops return the same after the conflicts they had
    gathered, and [JSONMatches] returns the list of [_match], each conflict
    in its place, with the same error.  The last conflict of the list is
    always the conflict of the marker that gave the error, at the path
    where it was evaluated. *)
Theorem C6_hard_error_keeps_conflicts (lib : GoLib) :
  (forall j jPatternSpecifier conflicts e,
     JSONMatches lib j jPatternSpecifier = Returns conflicts (Some e) ->
     conflicts <> []) /\
  (forall path x spec conflicts e,
     _match lib path x spec = Returns conflicts (Some e) -> conflicts <> []) /\
  (forall path isArrayOf arrayOf vY i rest gathered conflicts err,
     sliceLoop (_match lib) path isArrayOf arrayOf vY i rest gathered =
     Returns conflicts err ->
     exists more, conflicts = gathered ++ more) /\
  (forall path vY iterX gathered conflicts err,
     objectLoop (_match lib) path vY iterX gathered = Returns conflicts err ->
     exists more, conflicts = gathered ++ more) /\
  (forall path vX iterY gathered conflicts err,
     specLoop (_match lib) path vX iterY gathered = Returns conflicts err ->
     exists more, conflicts = gathered ++ more) /\
  (forall path x spec conflicts e,
     _match lib path x spec = Returns conflicts (Some e) ->
     (exists marker,
        spec = VStr marker /\
        conflicts = [mkConflict path (VStr marker) (Got x) None] /\
        _matchWithMarker lib path x marker = Returns conflicts (Some e)) \/
     (exists vX vY, x = VArr vX /\ spec = VArr vY) \/
     (exists vX vY, x = VObj vX /\ spec = VObj vY)) /\
  (forall path vX vY conflicts e,
     _match lib path (VArr vX) (VArr vY) = Returns conflicts (Some e) ->
     exists pre xElem post ySpecElem earlier itemConflicts e',
       vX = pre ++ xElem :: post /\
       sliceSiblings (_match lib) path (patternAt vY) 0 pre earlier /\
       patternAt vY (length pre) = Some ySpecElem /\
       _match lib (path ++ "[" ++ Sprint_int (length pre) ++ "]")%string xElem ySpecElem =
       Returns itemConflicts (Some e') /\
       conflicts = concat earlier ++ itemConflicts /\
       e = ErrSliceElement (length pre) e') /\
  (forall path vX vY conflicts e,
     NoDup (keys vY) ->
     _match lib path (VObj vX) (VObj vY) = Returns conflicts (Some e) ->
     exists pre key value post ySpecValue earlier itemConflicts e',
       vX = pre ++ (key, value) :: post /\
       mapSiblings (_match lib) path vY pre earlier /\
       MapIndex vY key = Some ySpecValue /\
       _match lib (path ++ "/" ++ key)%string value ySpecValue =
       Returns itemConflicts (Some e') /\
       conflicts = concat earlier ++ itemConflicts /\
       e = ErrMapElement path key e') /\
  (forall path isArrayOf arrayOf vY i rest gathered conflicts e,
     sliceLoop (_match lib) path isArrayOf arrayOf vY i rest gathered =
     Returns conflicts (Some e) ->
     exists pre xElem post ySpecElem earlier itemConflicts e',
       rest = pre ++ xElem :: post /\
       sliceSiblings (_match lib) path
         (fun k => if isArrayOf then Some arrayOf else Index vY k) i pre earlier /\
       (if isArrayOf then Some arrayOf else Index vY (i + length pre)) = Some ySpecElem /\
       _match lib (path ++ "[" ++ Sprint_int (i + length pre) ++ "]")%string
         xElem ySpecElem = Returns itemConflicts (Some e') /\
       conflicts = gathered ++ concat earlier ++ itemConflicts /\
       e = ErrSliceElement (i + length pre) e') /\
  (forall path vY iterX gathered conflicts e,
     objectLoop (_match lib) path vY iterX gathered = Returns conflicts (Some e) ->
     exists pre key value post ySpecValue earlier itemConflicts e',
       iterX = pre ++ (key, value) :: post /\
       mapSiblings (_match lib) path vY pre earlier /\
       MapIndex vY key = Some ySpecValue /\
       _match lib (path ++ "/" ++ key)%string value ySpecValue =
       Returns itemConflicts (Some e') /\
       conflicts = gathered ++ concat earlier ++ itemConflicts /\
       e = ErrMapElement path key e') /\
  (forall j jPatternSpecifier jAny patternSpecAny conflicts e,
     json_Unmarshal lib j = inl jAny ->
     json_Unmarshal lib jPatternSpecifier = inl patternSpecAny ->
     JSONMatches lib j jPatternSpecifier = Returns conflicts (Some e) ->
     exists produced,
       _match lib "/" jAny patternSpecAny = Returns produced (Some e) /\
       conflicts = List.map stripSlash produced) /\
  (forall path x spec conflicts e,
     _match lib path x spec = Returns conflicts (Some e) ->
     exists front failPath failX marker,
       conflicts = front ++ [mkConflict failPath (VStr marker) (Got failX) None] /\
       _matchWithMarker lib failPath failX marker =
       Returns [mkConflict failPath (VStr marker) (Got failX) None]
         (Some (rootCause e))).
Proof.
  split; [|split; [|split; [|split; [|split; [|split; [|split; [|split;
    [|split; [|split; [|split]]]]]]]]]].
  - intros j jp conflicts e H.
    pose proof (JSONMatches_errorHasConflict lib j jp) as E. now rewrite H in E.
  - intros path x spec conflicts e H.
    pose proof (_match_errorHasConflict lib spec path x) as E. now rewrite H in E.
  - intros path isArrayOf arrayOf vY i rest gathered conflicts err H.
    pose proof (sliceLoop_extends (_match lib) path isArrayOf arrayOf vY rest i gathered) as E.
    now rewrite H in E.
  - intros path vY iterX gathered conflicts err H.
    pose proof (objectLoop_extends (_match lib) path vY iterX gathered) as E.
    now rewrite H in E.
  - intros path vX iterY gathered conflicts err H.
    pose proof (specLoop_extends (_match lib) path vX iterY gathered) as E.
    now rewrite H in E.
  - intros path x spec conflicts e. apply _match_error_source.
  - intros path vX vY conflicts e H. rewrite _match_slices in H.
    now apply _matchSlice_error in H.
  - intros path vX vY conflicts e HY H. rewrite _match_maps in H.
    apply _matchMap_error in H; [exact H | | exact HY].
    intros s p x. apply _match_errorHasConflict.
  - intros path isArrayOf arrayOf vY i rest gathered conflicts e H.
    now apply sliceLoop_error in H.
  - intros path vY iterX gathered conflicts e H.
    now apply objectLoop_error in H.
  - intros j jp jAny spec conflicts e Hj Hp H.
    unfold JSONMatches in H. rewrite Hj, Hp in H.
    destruct (_match lib "/" jAny spec) as [produced err|p]; [|discriminate H].
    injection H as Hc He. subst err. exists produced. split; [reflexivity|].
    now rewrite fold_left_stripRound in Hc.
  - intros path x spec conflicts e. apply _match_error_ends_at_failure.
Qed.

Lemma C6_witness :
  exists pre xElem post ySpecElem earlier itemConflicts e',
    [VNum 2; VNum 5; VNum 3] = pre ++ xElem :: post /\
    sliceSiblings (_match fragmentLib) "/"
      (patternAt [VNum 1; VStr "#integer"; VNum 3]) 0 pre earlier /\
    patternAt [VNum 1; VStr "#integer"; VNum 3] (length pre) = Some ySpecElem /\
    _match fragmentLib ("/" ++ "[" ++ Sprint_int (length pre) ++ "]")%string
      xElem ySpecElem = Returns itemConflicts (Some e') /\
    [mkConflict "/[0]" (VNum 1) (Got (VNum 2)) None;
     mkConflict "/[1]" (VStr "#integer") (Got (VNum 5)) None] =
    concat earlier ++ itemConflicts /\
    ErrSliceElement 1 (ErrUnsupportedPattern "#integer") =
    ErrSliceElement (length pre) e'.
Proof.
  exact (proj1 (proj2 (proj2 (proj2 (proj2 (proj2 (proj2
           (C6_hard_error_keeps_conflicts fragmentLib))))))) "/"
           [VNum 2; VNum 5; VNum 3] [VNum 1; VStr "#integer"; VNum 3]
           [mkConflict "/[0]" (VNum 1) (Got (VNum 2)) None;
            mkConflict "/[1]" (VStr "#integer") (Got (VNum 5)) None]
           (ErrSliceElement 1 (ErrUnsupportedPattern "#integer")) eq_refl).
Defined.

(** The conflict of the sibling at index 0 is there with those of the
    failing element, one level down as well. *)
Example error_keeps_sibling_conflicts :
  _match fragmentLib "/" (VArr [VNum 2; VNum 5; VNum 3])
    (VArr [VNum 1; VStr "#integer"; VNum 3]) =
  Returns [mkConflict "/[0]" (VNum 1) (Got (VNum 2)) None;
           mkConflict "/[1]" (VStr "#integer") (Got (VNum 5)) None]
    (Some (ErrSliceElement 1 (ErrUnsupportedPattern "#integer"))) /\
  _match fragmentLib "/" (VArr [VArr [VNum 2; VNum 5; VNum 3]])
    (VArr [VArr [VNum 1; VStr "#integer"; VNum 3]]) =
  Returns [mkConflict "/[0][0]" (VNum 1) (Got (VNum 2)) None;
           mkConflict "/[0][1]" (VStr "#integer") (Got (VNum 5)) None]
    (Some (ErrSliceElement 0 (ErrSliceElement 1 (ErrUnsupportedPattern "#integer")))).
Proof. split; reflexivity. Qed.

(** ** Literal patterns match themselves *)

Lemma getMarker_literal v : literal v -> getMarker v = (false, "").
Proof.
  intros H. destruct H as [| | |s Hs| |]; try reflexivity.
  unfold getMarker. now rewrite Hs.
Qed.

Lemma Index_app_length pre x rest : Index (pre ++ x :: rest) (length pre) = Some x.
Proof. induction pre as [|a pre IH]; simpl; auto. Qed.

Section SelfMatch.

Variable rec : matcher.


Lemma sliceLoop_self path vY : forall rest pre,
  vY = pre ++ rest -> Forall (selfMatch rec) rest ->
  sliceLoop rec path false VNull vY (length pre) rest [] = Returns [] None.
Proof.
  induction rest as [|x rest IH]; intros pre HvY Hself; simpl; [reflexivity|].
  inversion Hself as [|x' l Hx Hrest]; subst.
  rewrite Index_app_length, Hx. simpl.
  replace (S (length pre)) with (length (pre ++ [x]))
    by (rewrite length_app; simpl; lia).
  apply IH; [|assumption]. now rewrite <- app_assoc.
Qed.

Lemma _matchSlice_self path vY :
  Forall literal vY -> Forall (selfMatch rec) vY ->
  _matchSlice rec path (VArr vY) (VArr vY) = Returns [] None.
Proof.
  intros Hlit Hself. unfold _matchSlice.
  pose proof (@sliceLoop_self path vY vY [] eq_refl Hself) as Hloop. simpl in Hloop.
  destruct vY as [|first [|second [|third vY]]]; simpl; try exact Hloop.
  - inversion Hlit as [|a l Hfirst _]; subst.
    rewrite (@getMarker_literal first Hfirst). exact Hloop.
  - rewrite Nat.eqb_refl. exact Hloop.
Qed.

Lemma objectLoop_self path vY : NoDup (keys vY) ->
  forall iterX, incl iterX vY -> Forall (fun kv => selfMatch rec (snd kv)) iterX ->
  objectLoop rec path vY iterX [] = Returns [] None.
Proof.
  intros Hnd. induction iterX as [|[key value] iterX IH]; intros Hincl Hself; simpl.
  - reflexivity.
  - inversion Hself as [|kv l Hhead Htail]; subst. simpl in Hhead.
    rewrite (@MapIndex_NoDup vY Hnd key value) by (apply Hincl; now left).
    rewrite Hhead. simpl. apply IH; [|assumption].
    intros kv Hkv. apply Hincl. now right.
Qed.

Lemma specLoop_self path vX : NoDup (keys vX) ->
  forall iterY, incl iterY vX ->
  Forall (fun kv => literal (snd kv)) iterY ->
  Forall (fun kv => selfMatch rec (snd kv)) iterY ->
  specLoop rec path vX iterY [] = Returns [] None.
Proof.
  intros Hnd. induction iterY as [|[key ySpecValue] iterY IH];
    intros Hincl Hlit Hself; simpl.
  - reflexivity.
  - inversion Hself as [|kv l Hhead Htail]; subst. simpl in Hhead.
    inversion Hlit as [|kv l Hlhead Hltail]; subst. simpl in Hlhead.
    unfold isMarker. rewrite (@getMarker_literal ySpecValue Hlhead). simpl.
    rewrite (@MapIndex_NoDup vX Hnd key ySpecValue) by (apply Hincl; now left).
    rewrite Hhead. simpl. apply IH; try assumption.
    intros kv Hkv. apply Hincl. now right.
Qed.

Lemma _matchMap_self path m : NoDup (keys m) ->
  Forall (fun kv => literal (snd kv)) m ->
  Forall (fun kv => selfMatch rec (snd kv)) m ->
  _matchMap rec path (VObj m) (VObj m) = Returns [] None.
Proof.
  intros Hnd Hlit Hself. unfold _matchMap.
  unfold _matchMapCheckIteratingObject, _matchMapCheckIteratingSpec.
  rewrite (@objectLoop_self path m Hnd m (incl_refl m) Hself). simpl.
  apply specLoop_self; auto using incl_refl.
Qed.

End SelfMatch.

(** C7: a decoded value without a marker string in it, matched against
    itself, gives no conflict and no error. *)
Theorem C7_literal_matches_itself (lib : GoLib) (p : Value)
  (Hdecoded : decoded p) (Hliteral : literal p) :
  forall path, _match lib path p p = Returns [] None.
Proof.
  revert Hdecoded Hliteral.
  induction p as [|b|q|s|elems IH|m IH] using Value_nested_ind;
    intros Hdec Hlit path; rewrite _match_unfold.
  - reflexivity.
  - destruct b; reflexivity.
  - change (_matchPrimitive path (VNum q) (VNum q) = Returns [] None).
    unfold _matchPrimitive. cbn [DeepEqual]. now rewrite Qeq_bool_refl.
  - inversion Hlit as [| | |s' Hs| |]; subst.
    unfold _match_body, getMarker. rewrite Hs.
    change (_matchPrimitive path (VStr s) (VStr s) = Returns [] None).
    unfold _matchPrimitive. cbn [DeepEqual]. now rewrite String.eqb_refl.
  - change (_matchSlice (_match lib) path (VArr elems) (VArr elems) = Returns [] None).
    inversion Hdec as [| | | |l Hd|]; subst.
    inversion Hlit as [| | | |l Hl|]; subst.
    apply _matchSlice_self; [assumption|].
    rewrite Forall_forall in *. intros v Hv path'. now apply IH; auto.
  - change (_matchMap (_match lib) path (VObj m) (VObj m) = Returns [] None).
    inversion Hdec as [| | | | |l Hnd Hd]; subst.
    inversion Hlit as [| | | | |l Hl]; subst.
    apply _matchMap_self; try assumption.
    rewrite Forall_forall in *. intros kv Hkv path'. now apply IH; auto.
Qed.

Lemma C7_witness :
  decoded sampleDocument /\ literal sampleDocument /\
  _match fragmentLib "/" sampleDocument sampleDocument = Returns [] None.
Proof.
  assert (Hdecoded : decoded sampleDocument).
  { unfold sampleDocument.
    repeat first [ apply decoded_obj | apply decoded_arr | apply NoDup_cons
                 | apply NoDup_nil | apply Forall_cons | apply Forall_nil
                 | apply decoded_null | apply decoded_bool | apply decoded_num
                 | apply decoded_str ];
    simpl; intros H; repeat (destruct H as [H|H]; [discriminate H|]); exact H. }
  assert (Hliteral : literal sampleDocument).
  { unfold sampleDocument.
    repeat first [ apply literal_obj | apply literal_arr | apply Forall_cons
                 | apply Forall_nil | apply literal_null | apply literal_bool
                 | apply literal_num | apply literal_str; reflexivity ]. }
  split; [exact Hdecoded|]. split; [exact Hliteral|].
  exact (@C7_literal_matches_itself fragmentLib sampleDocument Hdecoded Hliteral "/").
Defined.

(** * Further properties of the matcher *)

Lemma sliceLoop_run rec path isArrayOf arrayOf vY : forall rest i conflicts,
  sliceLoop rec path isArrayOf arrayOf vY i rest conflicts =
  run (sliceSteps rec path isArrayOf arrayOf vY i rest) conflicts.
Proof.
  induction rest as [|xElem rest IH]; intros i conflicts; simpl; [reflexivity|].
  destruct (if isArrayOf then Some arrayOf else Index vY i); [|reflexivity].
  simpl. apply afterItem_ext. intros c. apply IH.
Qed.

Lemma run_app steps1 : forall steps2 conflicts,
  run (steps1 ++ steps2) conflicts =
  match run steps1 conflicts with
  | Returns conflicts' None => run steps2 conflicts'
  | o => o
  end.
Proof.
  induction steps1 as [|[item wrap|c|p] steps1 IH]; intros steps2 conflicts; simpl;
    try reflexivity; [|apply IH].
  destruct item as [cs [e|]|p]; simpl; try reflexivity. apply IH.
Qed.

Lemma objectLoop_run rec path vY : forall iterX conflicts,
  objectLoop rec path vY iterX conflicts =
  run (flat_map (objectStep rec path vY) iterX) conflicts.
Proof.
  induction iterX as [|[key value] iterX IH]; intros conflicts; simpl; [reflexivity|].
  unfold objectStep at 1. simpl.
  destruct (MapIndex vY key); simpl; [|apply IH].
  apply afterItem_ext. intros c. apply IH.
Qed.

Lemma specLoop_run rec path vX : forall iterY conflicts,
  specLoop rec path vX iterY conflicts =
  run (flat_map (specStep rec path vX) iterY) conflicts.
Proof.
  induction iterY as [|[key ySpecValue] iterY IH]; intros conflicts; simpl;
    [reflexivity|].
  unfold specStep at 1. simpl.
  destruct (getMarker ySpecValue) as [isMarker_ marker].
  repeat match goal with
  | |- context [if ?b then _ else _] => destruct b
  | |- context [match MapIndex ?m ?k with _ => _ end] => destruct (MapIndex m k)
  end; simpl; try apply IH.
  apply afterItem_ext. intros c. apply IH.
Qed.

Lemma run_extends steps : forall conflicts, extends conflicts (run steps conflicts).
Proof.
  induction steps as [|[item wrap|c|p] steps IH]; intros conflicts; simpl.
  - exists []. now rewrite app_nil_r.
  - apply afterItem_extends. exact IH.
  - eapply extends_snoc. apply IH.
  - exact I.
Qed.

Lemma run_clean steps : forall conflicts,
  run steps conflicts = Returns [] None <-> conflicts = [] /\ Forall cleanStep steps.
Proof.
  induction steps as [|[item wrap|c|p] steps IH]; intros conflicts; simpl.
  - split; [intros H; injection H as ->; auto | intros [-> _]; reflexivity].
  - split.
    + intros H.
      pose proof (run_extends (Item item wrap :: steps) conflicts) as E.
      simpl in E. rewrite H in E. destruct E as [more E].
      symmetry in E. apply app_eq_nil in E. destruct E as [-> _].
      destruct item as [cs [e|]|p]; simpl in H; try discriminate.
      apply IH in H. destruct H as [-> H]. split; [reflexivity|].
      constructor; [reflexivity | assumption].
    + intros [-> H]. inversion H as [|s l Hs Hl]; subst. simpl in Hs. subst item.
      simpl. apply IH. auto.
  - split.
    + intros H. apply IH in H. destruct H as [H _].
      apply app_eq_nil in H. destruct H as [_ H]. discriminate.
    + intros [_ H]. inversion H as [|s l Hs Hl]; subst. contradiction.
  - split; [discriminate|]. intros [_ H]. inversion H as [|s l Hs Hl]; subst. contradiction.
Qed.

Lemma run_outcomeOf P E steps : forall conflicts,
  Forall P conflicts -> Forall (stepOf P E) steps ->
  outcomeOf P E (run steps conflicts).
Proof.
  induction steps as [|[item wrap|c|p] steps IH]; intros conflicts Hc Hs; simpl.
  - auto.
  - inversion Hs as [|s l Hhead Hl]; subst. destruct Hhead as [Hitem Hwrap].
    destruct item as [cs [e|]|p]; simpl in *; auto.
    + destruct Hitem as [Hcs He]. split; [apply Forall_app; auto | auto].
    + destruct Hitem as [Hcs _]. apply IH; [apply Forall_app; auto | assumption].
  - inversion Hs as [|s l Hhead Hl]; subst. simpl in Hhead.
    apply IH; [|assumption]. apply Forall_app. auto.
  - exact I.
Qed.

Lemma run_returns steps : forall conflicts,
  Forall stepReturns steps -> returns (run steps conflicts).
Proof.
  induction steps as [|[item wrap|c|p] steps IH]; intros conflicts Hs; simpl.
  - exact I.
  - inversion Hs as [|s l Hitem Hl]; subst.
    destruct item as [cs [e|]|p]; simpl in *; auto.
  - inversion Hs; subst. auto.
  - inversion Hs as [|s l Hhead Hl]; subst. contradiction.
Qed.

(** ** What each marker accepts *)

Lemma SplitN2_not_nil marker : SplitN2 marker <> [].
Proof.
  unfold SplitN2. destruct (cutSpace marker) as [[before after]|]; discriminate.
Qed.

(** X1: a marker gives no conflict and no error, or the one conflict of the
    marker at the path, with or without an error; [markerParts] is never
    empty, so [markerParts[0]] does not panic. *)
Theorem marker_yields_at_most_its_conflict (lib : GoLib) (path : string) (x : Value)
  (marker : string) :
  _matchWithMarker lib path x marker = Returns [] None \/
  exists err,
    _matchWithMarker lib path x marker =
    Returns [mkConflict path (VStr marker) (Got x) None] err.
Proof. exact (_matchWithMarker_cases lib path x marker). Qed.

(** X2: the null actual value never gives an error, nor a panic, whatever the
    pattern, a marker with a bad argument or an unsupported marker
    included; it matches the null pattern and the markers [#ignore], [#null]
    and [#present], written so and no other way, and gives the one conflict
    of the pattern otherwise. *)
Theorem null_actual_value (lib : GoLib) (path : string) (spec : Value) :
  exists conflicts,
    _match lib path VNull spec = Returns conflicts None /\
    (conflicts = [] <->
     spec = VNull \/ spec = VStr "#ignore" \/ spec = VStr "#null" \/
     spec = VStr "#present") /\
    (conflicts <> [] -> conflicts = [mkConflict path spec (Got VNull) None]).
Proof.
  rewrite _match_unfold. unfold _match_body.
  destruct spec as [|b|q|s|vY|vY];
    try (eexists; split; [reflexivity|]; split;
         [split; [discriminate | intros [H|[H|[H|H]]]; discriminate H]
         | reflexivity]).
  - exists []. split; [reflexivity|]. split; [tauto | congruence].
  - cbn [IsValid KindOf reflect.Kind_eqb negb getMarker].
    destruct (HasPrefix s "#") eqn:Hs;
      cbn [andb IsValid KindOf reflect.Kind_eqb negb].
    + unfold _matchWithMarker. cbn [isNil andb IsValid KindOf reflect.Kind_eqb negb].
      unfold ignoreMarker, nullMarker, presentMarker.
      destruct (String.eqb_spec s "#ignore") as [->|Hi].
      { exists []. split; [reflexivity|]. split; [tauto | congruence]. }
      destruct (String.eqb_spec s "#null") as [->|Hn].
      { exists []. split; [reflexivity|]. split; [tauto | congruence]. }
      destruct (String.eqb_spec s "#present") as [->|Hp].
      { exists []. split; [reflexivity|]. split; [tauto | congruence]. }
      cbn [orb]. eexists. split; [reflexivity|]. split; [|reflexivity].
      split; [discriminate|].
      intros [H|[H|[H|H]]]; congruence.
    + eexists. split; [reflexivity|]. split; [|reflexivity].
      split; [discriminate|].
      intros [H|[H|[H|H]]]; try discriminate H;
        injection H as ->; discriminate Hs.
Qed.

(** X3: [#null] accepts the null value only and [#notnull] every other value;
    [#ignore] and [#present] accept every value and [#notpresent] none. *)
Theorem presence_markers (lib : GoLib) (path : string) (x : Value) :
  (_match lib path x (VStr "#null") = Returns [] None <-> x = VNull) /\
  (_match lib path x (VStr "#notnull") = Returns [] None <-> x <> VNull) /\
  _match lib path x (VStr "#ignore") = Returns [] None /\
  _match lib path x (VStr "#present") = Returns [] None /\
  _match lib path x (VStr "#notpresent") =
  Returns [mkConflict path (VStr "#notpresent") (Got x) None] None.
Proof.
  destruct x; cbn; repeat split; intros; congruence.
Qed.

(** X4: the markers of a type accept the values of that type and no other, the
    null value included, and never return an error. *)
Theorem type_markers (lib : GoLib) (path : string) (x : Value) :
  (_match lib path x (VStr "#string") = Returns [] None <-> exists s, x = VStr s) /\
  (_match lib path x (VStr "#number") = Returns [] None <-> exists q, x = VNum q) /\
  (_match lib path x (VStr "#bool") = Returns [] None <-> exists b, x = VBool b) /\
  (_match lib path x (VStr "#boolean") = Returns [] None <-> exists b, x = VBool b) /\
  (_match lib path x (VStr "#array") = Returns [] None <-> exists vX, x = VArr vX) /\
  (_match lib path x (VStr "#object") = Returns [] None <-> exists vX, x = VObj vX) /\
  (forall marker,
     In marker ["#string"; "#number"; "#bool"; "#boolean"; "#array"; "#object"] ->
     exists conflicts, _match lib path x (VStr marker) = Returns conflicts None).
Proof.
  repeat split; intros;
    try (destruct x; cbn in *; first [discriminate | eexists; reflexivity]);
    try (match goal with H : exists _, _ |- _ => destruct H as [? ->]; reflexivity end).
  cbn [In] in H.
  repeat (destruct H as [<-|H]; [destruct x; eexists; reflexivity|]).
  contradiction.
Qed.

(** X5: the markers of a format accept the strings of that format and nothing
    else. *)
Theorem format_markers (lib : GoLib) (path : string) (x : Value) :
  (_match lib path x (VStr "#date") = Returns [] None <->
   exists s, x = VStr s /\ time_Parse_date lib s = true) /\
  (_match lib path x (VStr "#datetime") = Returns [] None <->
   exists s, x = VStr s /\ time_Parse_RFC3339 lib s = true) /\
  (_match lib path x (VStr "#uuid") = Returns [] None <->
   exists s, x = VStr s /\ uuidRe_MatchString s = true) /\
  (_match lib path x (VStr "#uuid-v4") = Returns [] None <->
   exists s, x = VStr s /\ uuidV4Re_MatchString s = true) /\
  (forall marker,
     In marker ["#date"; "#datetime"; "#uuid"; "#uuid-v4"] ->
     exists conflicts, _match lib path x (VStr marker) = Returns conflicts None).
Proof.
  assert (Hno : forall y : Value,
            (forall s, y <> VStr s) -> forall P : string -> Prop,
            ~ exists s, y = VStr s /\ P s).
  { intros y Hy P [s [-> _]]. now apply (Hy s). }
  repeat split; intros.
  all: try (destruct x as [| | |s| |]; cbn in *; try discriminate;
            match goal with
            | H : (if ?b then _ else _) = _ |- _ =>
                destruct b eqn:E; [|discriminate]; exists s; now split
            end).
  all: try (match goal with H : exists _, _ |- _ => destruct H as [s [-> Hs]] end;
            cbn; now rewrite Hs).
  cbn [In] in H.
  repeat (destruct H as [<-|H];
    [destruct x as [| | |s| |]; cbn;
     try (eexists; reflexivity);
     match goal with |- context [if ?b then _ else _] => destruct b end;
     eexists; reflexivity|]).
  contradiction.
Qed.

(** ** The UUID patterns *)

Lemma andThen_Some r f s :
  andThen r f = Some s -> exists m, r = Some m /\ f m = Some s.
Proof. destruct r as [m|]; simpl; [eauto | discriminate]. Qed.

Lemma atEnd_true r : atEnd r = true -> r = Some EmptyString.
Proof. destruct r as [[|c s]|]; simpl; congruence. Qed.

Lemma hexRun_S n s r :
  hexRun (S n) s = Some r ->
  exists c s', s = String c s' /\ isHex c = true /\ hexRun n s' = Some r.
Proof.
  simpl. destruct s as [|c s']; [discriminate|].
  destruct (isHex c) eqn:Hc; [|discriminate]. eauto.
Qed.

Lemma lit_Some c s r : lit c s = Some r -> s = String c r.
Proof.
  unfold lit. destruct s as [|c' s']; [discriminate|].
  destruct (Ascii.eqb_spec c c') as [->|_]; congruence.
Qed.

Lemma oneOf_Some cs s r :
  oneOf cs s = Some r -> exists c, s = String c r /\ existsb (Ascii.eqb c) cs = true.
Proof.
  unfold oneOf. destruct s as [|c' s']; [discriminate|].
  destruct (existsb (Ascii.eqb c') cs) eqn:Hc; [|discriminate].
  intros H. injection H as <-. eauto.
Qed.

Ltac uuid_invert :=
  repeat match goal with
  | H : atEnd _ = true |- _ => apply atEnd_true in H
  | H : andThen _ _ = Some _ |- _ =>
      let m := fresh "m" in let H1 := fresh "H" in let H2 := fresh "H" in
      apply andThen_Some in H; destruct H as [m [H1 H2]]
  | H : lit _ _ = Some _ |- _ => apply lit_Some in H; subst
  | H : oneOf _ _ = Some _ |- _ =>
      let c := fresh "c" in let Hc := fresh "Hc" in
      apply oneOf_Some in H; destruct H as [c [-> Hc]]
  | H : hexRun (S _) _ = Some _ |- _ =>
      let c := fresh "c" in let s := fresh "s" in let Hc := fresh "Hc" in
      apply hexRun_S in H; destruct H as [c [s [-> [Hc H]]]]
  | H : hexRun 0 _ = Some _ |- _ => simpl in H; injection H as H; subst
  end.

(** X6: a string [uuidV4Re] matches is one [uuidRe] matches: it has 36
    characters, the hyphens are at 8, 13, 18 and 23, and the version digit,
    at 14, is 4. *)
Theorem uuid_v4_is_uuid (s : string) (Hv4 : uuidV4Re_MatchString s = true) :
  uuidRe_MatchString s = true /\ String.length s = 36 /\
  String.get 8 s = Some "-"%char /\ String.get 13 s = Some "-"%char /\
  String.get 14 s = Some "4"%char /\
  String.get 18 s = Some "-"%char /\ String.get 23 s = Some "-"%char.
Proof.
  unfold uuidV4Re_MatchString in Hv4. uuid_invert.
  match goal with
  | H : existsb (Ascii.eqb ?c) _ = true |- _ =>
      assert (Hvariant : isHex c = true);
      [ cbn [existsb] in H;
        repeat match type of H with
        | (Ascii.eqb ?a ?b || _) = true =>
            destruct (Ascii.eqb_spec a b) as [->|_]; [reflexivity|]; cbn [orb] in H
        end; discriminate H
      | clear H ]
  end.
  repeat split; try reflexivity.
  assert (Hversion : isHex "4" = true) by reflexivity.
  unfold uuidRe_MatchString. cbn [hexRun andThen lit atEnd].
  repeat (first [ rewrite Ascii.eqb_refl
                | match goal with
                  | H : isHex ?a = true |- context [isHex ?a] => rewrite H
                  end ];
          cbn [hexRun andThen lit atEnd]).
  reflexivity.
Qed.

Lemma uuid_v4_is_uuid_witness :
  uuidRe_MatchString "123e4567-e89b-42d3-A456-426614174000" = true /\
  String.length "123e4567-e89b-42d3-A456-426614174000" = 36 /\
  String.get 8 "123e4567-e89b-42d3-A456-426614174000" = Some "-"%char /\
  String.get 13 "123e4567-e89b-42d3-A456-426614174000" = Some "-"%char /\
  String.get 14 "123e4567-e89b-42d3-A456-426614174000" = Some "4"%char /\
  String.get 18 "123e4567-e89b-42d3-A456-426614174000" = Some "-"%char /\
  String.get 23 "123e4567-e89b-42d3-A456-426614174000" = Some "-"%char.
Proof.
  exact (@uuid_v4_is_uuid "123e4567-e89b-42d3-A456-426614174000" eq_refl).
Defined.

(** ** Scalar patterns *)

(** X7: a pattern that is null, a boolean, a number or a string that is no
    marker is compared with [reflect.DeepEqual], whatever the actual value:
    no conflict when they are equal, the one conflict of the pattern when
    they are not, and no error. *)
Theorem scalar_pattern_is_DeepEqual (lib : GoLib) (path : string) (x p : Value)
  (Hliteral : literal p)
  (Hscalar : KindOf p <> reflect.Slice /\ KindOf p <> reflect.Map) :
  _match lib path x p =
  if DeepEqual x p then Returns [] None
  else Returns [mkConflict path p (Got x) None] None.
Proof.
  destruct Hscalar as [Hslice Hmap].
  rewrite _match_unfold. unfold _match_body.
  rewrite (getMarker_literal Hliteral).
  destruct p as [|b|q|s|vY|vY]; cbn in Hslice, Hmap; try congruence;
    destruct x; try reflexivity;
    cbn [IsValid KindOf reflect.Kind_eqb negb andb matchers];
    unfold _matchPrimitive; cbn [DeepEqual];
    match goal with |- context [negb ?b] => destruct b end; reflexivity.
Qed.

(** The numbers 3/2 and 6/4 are equal. *)
Lemma scalar_pattern_is_DeepEqual_witness :
  _match fragmentLib "/n" (VNum (Qmake 3 2)) (VNum (Qmake 6 4)) = Returns [] None.
Proof.
  assert (Hscalar : KindOf (VNum (Qmake 6 4)) <> reflect.Slice /\
                    KindOf (VNum (Qmake 6 4)) <> reflect.Map)
    by (split; discriminate).
  exact (@scalar_pattern_is_DeepEqual fragmentLib "/n" (VNum (Qmake 3 2))
           (VNum (Qmake 6 4)) (literal_num (Qmake 6 4)) Hscalar).
Defined.

(** ** Where the conflicts are, and which errors there are *)

Lemma append_assoc (s1 s2 s3 : string) : ((s1 ++ s2) ++ s3 = s1 ++ (s2 ++ s3))%string.
Proof. induction s1 as [|c s1 IH]; simpl; [reflexivity | now rewrite IH]. Qed.

Lemma append_empty_r (s : string) : (s ++ "" = s)%string.
Proof. induction s as [|c s IH]; simpl; [reflexivity | now rewrite IH]. Qed.

Lemma under_here path expected got : under path (mkConflict path expected got None).
Proof. split; [|reflexivity]. exists "". simpl. now rewrite append_empty_r. Qed.

Lemma under_below path s c : under (path ++ s) c -> under path c.
Proof.
  intros [[suffix H] He]. split; [|assumption].
  exists (s ++ suffix)%string. now rewrite <- append_assoc.
Qed.

(** The loops keep what holds of the outcomes of [rec]: a property [P] of a
    path and a conflict that holds of a conflict at the path and of one
    below it, and a property [E] of errors that the loops' wrappers keep. *)
Section LoopsKeep.

Variable P : string -> Conflict -> Prop.
Variable E : error -> Prop.
Hypothesis P_here : forall path expected got, P path (mkConflict path expected got None).
Hypothesis P_below : forall path s c, P (path ++ s)%string c -> P path c.
Hypothesis E_slice : forall i e, E e -> E (ErrSliceElement i e).
Hypothesis E_object : forall path key e, E e -> E (ErrMapElement path key e).
Hypothesis E_spec : forall key e, E e -> E (ErrMapElementSpec key e).

Variable rec : matcher.

Variable path : string.

Lemma outcomeOf_below s o : outcomeOf (P (path ++ s)) E o -> outcomeOf (P path) E o.
Proof.
  destruct o as [cs err|p]; simpl; [|auto]. intros [H He]. split; [|assumption].
  eapply Forall_impl; [|exact H]. intros c. apply P_below.
Qed.

Lemma sliceSteps_kept isArrayOf arrayOf vY :
  (isArrayOf = true -> keptOn P E rec arrayOf) -> Forall (keptOn P E rec) vY ->
  forall rest i,
    Forall (stepOf (P path) E) (sliceSteps rec path isArrayOf arrayOf vY i rest).
Proof.
  intros Hof HvY. induction rest as [|xElem rest IH]; intros i; simpl; constructor;
    [|apply IH].
  destruct isArrayOf.
  - simpl. split; [|auto]. eapply outcomeOf_below. now apply Hof.
  - destruct (Index vY i) as [ySpecElem|] eqn:Hi; simpl; [|exact I].
    split; [|auto]. eapply outcomeOf_below.
    apply Index_In in Hi. rewrite Forall_forall in HvY. now apply HvY.
Qed.

Lemma _matchSlice_kept vX vY :
  Forall (keptOn P E rec) vY -> outcomeOf (P path) E (_matchSlice rec path (VArr vX) (VArr vY)).
Proof.
  intros HvY. unfold _matchSlice.
  assert (Helem : forall arrayOf,
            outcomeOf (P path) E (sliceLoop rec path false arrayOf vY 0 vX [])).
  { intros arrayOf. rewrite sliceLoop_run. apply run_outcomeOf; [constructor|].
    apply sliceSteps_kept; [discriminate|assumption]. }
  destruct (length vY =? 2).
  - destruct (Index vY 0) as [first|]; [|destruct (Index vY 1); exact I].
    destruct (Index vY 1) as [second|] eqn:H1; [|exact I].
    destruct (getMarker first) as [isMarker_ firstMarker].
    destruct (isMarker_ && String.eqb firstMarker "#array-of"); [|apply Helem].
    rewrite sliceLoop_run. apply run_outcomeOf; [constructor|].
    apply sliceSteps_kept; [|assumption].
    intros _. apply Index_In in H1. rewrite Forall_forall in HvY. now apply HvY.
  - destruct (negb (length vX =? length vY)); [|apply Helem].
    simpl. auto.
Qed.

Lemma objectSteps_kept vY iterX :
  Forall (fun kv => keptOn P E rec (snd kv)) vY ->
  Forall (stepOf (P path) E) (flat_map (objectStep rec path vY) iterX).
Proof.
  intros HvY. apply Forall_flat_map. apply Forall_forall. intros [key value] _.
  unfold objectStep. simpl.
  destruct (MapIndex vY key) as [ySpecValue|] eqn:Hk; constructor; [|constructor].
  simpl. split; [|auto]. eapply outcomeOf_below.
  apply MapIndex_In in Hk. rewrite Forall_forall in HvY. exact (HvY _ Hk _ _).
Qed.

Lemma specSteps_kept vX iterY :
  Forall (fun kv => keptOn P E rec (snd kv)) iterY ->
  Forall (stepOf (P path) E) (flat_map (specStep rec path vX) iterY).
Proof.
  intros HY. apply Forall_flat_map. eapply Forall_impl; [|exact HY].
  intros [key ySpecValue] Hhead. simpl in Hhead.
  assert (Hpc : forall got,
            P path (mkConflict (path ++ "/" ++ key)%string ySpecValue got None)).
  { intros got. eapply P_below. apply P_here. }
  unfold specStep. simpl.
  destruct (getMarker ySpecValue) as [isMarker_ marker].
  repeat match goal with
  | |- context [if ?b then _ else _] => destruct b
  | |- context [match MapIndex ?m ?k with _ => _ end] => destruct (MapIndex m k)
  end;
  first [ apply Forall_nil
        | apply Forall_cons; [|apply Forall_nil]; simpl;
          first [ apply Hpc
                | split; [eapply outcomeOf_below; apply Hhead | auto] ] ].
Qed.

Lemma _matchMap_kept vX vY :
  Forall (fun kv => keptOn P E rec (snd kv)) vY ->
  outcomeOf (P path) E (_matchMap rec path (VObj vX) (VObj vY)).
Proof.
  intros HvY. unfold _matchMap.
  unfold _matchMapCheckIteratingObject, _matchMapCheckIteratingSpec.
  assert (H1 : outcomeOf (P path) E (objectLoop rec path vY vX [])).
  { rewrite objectLoop_run. apply run_outcomeOf; [constructor|].
    now apply objectSteps_kept. }
  destruct (objectLoop rec path vY vX []) as [conflicts err|p]; [|exact I].
  destruct (0 <? length conflicts); [exact H1|].
  rewrite specLoop_run. apply run_outcomeOf; [constructor|].
  now apply specSteps_kept.
Qed.

(** What [_match] does before it calls a matcher of [matchers]. *)
Lemma _match_body_kept lib x spec :
  (forall s, spec = VStr s -> HasPrefix s "#" = true ->
     outcomeOf (P path) E (_matchWithMarker lib path x s)) ->
  (forall vY, spec = VArr vY -> Forall (keptOn P E rec) vY) ->
  (forall vY, spec = VObj vY -> Forall (fun kv => keptOn P E rec (snd kv)) vY) ->
  outcomeOf (P path) E (_match_body lib rec path x spec).
Proof.
  intros Hmarker Hslice Hmap. unfold _match_body.
  assert (Hone : forall got, outcomeOf (P path) E (Returns [mkConflict path spec got None] None)).
  { intros got. simpl. auto. }
  assert (Hprim : outcomeOf (P path) E (_matchPrimitive path x spec)).
  { unfold _matchPrimitive. destruct (negb _); [apply Hone | simpl; auto]. }
  destruct spec as [|b|q|s|vY|vY].
  - destruct x; simpl; auto.
  - destruct x; try apply Hone. exact Hprim.
  - destruct x; try apply Hone. exact Hprim.
  - unfold getMarker. destruct (HasPrefix s "#") eqn:Hs.
    + now apply Hmarker.
    + destruct x; try apply Hone. exact Hprim.
  - destruct x as [| | | |vX|]; try apply Hone.
    apply _matchSlice_kept. now apply Hslice.
  - destruct x as [| | | | |vX]; try apply Hone.
    apply _matchMap_kept. now apply Hmap.
Qed.

End LoopsKeep.

Lemma _matchWithMarker_formed lib path x marker :
  outcomeOf (under path) fromMarker (_matchWithMarker lib path x marker).
Proof.
  unfold _matchWithMarker.
  pose proof (SplitN2_not_nil marker) as Hparts.
  destruct (SplitN2 marker) as [|name args]; [contradiction|].
  repeat match goal with
  | |- context [if ?b then _ else _] => destruct b
  | |- context [match ?t with _ => _ end] => destruct t
  end; simpl; repeat split; auto using under_here.
Qed.

Lemma _match_formed lib : forall spec path x,
  outcomeOf (under path) fromMarker (_match lib path x spec).
Proof.
  induction spec as [|b|q|s|vY IH|vY IH] using Value_nested_ind;
    intros path x; rewrite _match_unfold;
    apply (@_match_body_kept under fromMarker under_here under_below
             (fun _ _ H => H) (fun _ _ _ H => H) (fun _ _ H => H));
    try discriminate.
  - intros s' _ _. apply _matchWithMarker_formed.
  - intros vY' H. injection H as H. subst vY'. exact IH.
  - intros vY' H. injection H as H. subst vY'. exact IH.
Qed.




(** X9: the paths [JSONMatches] returns begin with a slash; the error it returns
    is that of an input that does not decode or that of a marker. *)
Theorem JSONMatches_paths_and_errors (lib : GoLib) (j jPatternSpecifier : string)
  (conflicts : list Conflict) (err : option error)
  (Hmatches : JSONMatches lib j jPatternSpecifier = Returns conflicts err) :
  (forall c, In c conflicts -> HasPrefix (Path c) "/" = true) /\
  (forall e, err = Some e ->
     (exists e', json_Unmarshal lib j = inr e' /\ e = ErrUnmarshalLeft e') \/
     (exists e', json_Unmarshal lib jPatternSpecifier = inr e' /\ e = ErrUnmarshalPattern e') \/
     markerError e = true).
Proof.
  unfold JSONMatches in Hmatches.
  destruct (json_Unmarshal lib j) as [jAny|e1].
  2:{ injection Hmatches as <- <-. split.
      - intros c [<-|[]]. reflexivity.
      - intros e H. injection H as <-. left. eauto. }
  destruct (json_Unmarshal lib jPatternSpecifier) as [spec|e2].
  2:{ injection Hmatches as <- <-. split.
      - intros c [<-|[]]. reflexivity.
      - intros e H. injection H as <-. right. left. eauto. }
  pose proof (_match_formed lib spec "/" jAny) as H.
  destruct (_match lib "/" jAny spec) as [cs err'|p]; [|discriminate].
  injection Hmatches as <- <-. destruct H as [Hc He]. split.
  - intros c Hin. rewrite fold_left_stripRound in Hin. simpl in Hin.
    apply in_map_iff in Hin. destruct Hin as [c0 [<- Hin0]].
    rewrite Forall_forall in Hc. destruct (Hc c0 Hin0) as [[suffix Hp] _].
    unfold stripSlash. destruct c0 as [p ex ac er]. cbn [Path] in *. subst p.
    cbn [append HasPrefix]. rewrite Ascii.eqb_refl.
    destruct suffix as [|a suffix]; cbn [andb HasPrefix Path];
      [now rewrite Ascii.eqb_refl|].
    destruct (Ascii.eqb_spec "/"%char a) as [<-|_];
      cbn [andb HasPrefix Path dropFirst]; now rewrite Ascii.eqb_refl.
  - intros e ->. right. right. exact He.
Qed.

Lemma JSONMatches_paths_and_errors_witness :
  (forall c,
     In c [mkConflict "/a" (VNum 2) (Got (VNum 1)) None;
           mkConflict "/b" (VStr "#integer") (Got (VNum 5)) None] ->
     HasPrefix (Path c) "/" = true) /\
  (forall e,
     Some (ErrMapElement "/" "b" (ErrUnsupportedPattern "#integer")) = Some e ->
     (exists e', json_Unmarshal fragmentLib
                   ("{" ++ quoted "a" ++ ":1," ++ quoted "b" ++ ":5}") = inr e' /\
                 e = ErrUnmarshalLeft e') \/
     (exists e', json_Unmarshal fragmentLib
                   ("{" ++ quoted "a" ++ ":2," ++ quoted "b" ++ ":" ++ quoted "#integer" ++ "}")
                 = inr e' /\
                 e = ErrUnmarshalPattern e') \/
     markerError e = true).
Proof.
  exact (@JSONMatches_paths_and_errors fragmentLib
           ("{" ++ quoted "a" ++ ":1," ++ quoted "b" ++ ":5}")
           ("{" ++ quoted "a" ++ ":2," ++ quoted "b" ++ ":" ++ quoted "#integer" ++ "}")
           [mkConflict "/a" (VNum 2) (Got (VNum 1)) None;
            mkConflict "/b" (VStr "#integer") (Got (VNum 5)) None]
           (Some (ErrMapElement "/" "b" (ErrUnsupportedPattern "#integer"))) eq_refl).
Defined.



(** ** Where the matcher cannot panic *)

Lemma Index_Some l : forall i, i < length l -> exists v, Index l i = Some v.
Proof.
  induction l as [|x l IH]; intros [|i] H; simpl in *; try lia; eauto.
  apply IH. lia.
Qed.

Lemma _matchWithMarker_returns lib path x marker :
  returns (_matchWithMarker lib path x marker).
Proof.
  unfold _matchWithMarker.
  pose proof (SplitN2_not_nil marker) as Hparts.
  destruct (SplitN2 marker) as [|name args]; [contradiction|].
  repeat match goal with
  | |- context [if ?b then _ else _] => destruct b
  | |- context [match ?t with _ => _ end] => destruct t
  end; exact I.
Qed.

Section LoopsReturn.

Variable rec : matcher.
Variable path : string.

Lemma sliceSteps_returns isArrayOf arrayOf vY :
  (isArrayOf = true -> returnsOn rec arrayOf) -> Forall (returnsOn rec) vY ->
  forall rest i,
    isArrayOf = true \/ i + length rest <= length vY ->
    Forall stepReturns (sliceSteps rec path isArrayOf arrayOf vY i rest).
Proof.
  intros Hof HvY. induction rest as [|xElem rest IH]; intros i Hi; simpl; constructor.
  - destruct isArrayOf.
    + simpl. now apply Hof.
    + destruct Hi as [Hi|Hi]; [discriminate|]. simpl in Hi.
      destruct (@Index_Some vY i ltac:(lia)) as [y Hy]. rewrite Hy. simpl.
      apply Index_In in Hy. rewrite Forall_forall in HvY. now apply HvY.
  - apply IH. destruct Hi as [Hi|Hi]; [now left | right; simpl in Hi; lia].
Qed.

Lemma _matchSlice_returns vX vY :
  Forall (returnsOn rec) vY ->
  (length vY = 2 -> exists p, vY = [VStr "#array-of"; p]) ->
  returns (_matchSlice rec path (VArr vX) (VArr vY)).
Proof.
  intros HvY Hpair. unfold _matchSlice.
  destruct (Nat.eqb_spec (length vY) 2) as [H2|H2].
  - destruct (Hpair H2) as [p ->]. simpl.
    rewrite sliceLoop_run. apply run_returns.
    apply sliceSteps_returns; [|assumption|now left].
    intros _. inversion HvY as [|a l _ Hl]; subst. now inversion Hl.
  - destruct (Nat.eqb_spec (length vX) (length vY)) as [Hlen|Hlen]; simpl; [|exact I].
    rewrite sliceLoop_run. apply run_returns.
    apply sliceSteps_returns; [discriminate|assumption|right; lia].
Qed.

Lemma _matchMap_returns vX vY :
  Forall (fun kv => returnsOn rec (snd kv)) vY ->
  returns (_matchMap rec path (VObj vX) (VObj vY)).
Proof.
  intros HvY. unfold _matchMap.
  unfold _matchMapCheckIteratingObject, _matchMapCheckIteratingSpec.
  assert (H1 : returns (objectLoop rec path vY vX [])).
  { rewrite objectLoop_run. apply run_returns.
    apply Forall_flat_map. apply Forall_forall. intros [key value] _.
    unfold objectStep. simpl.
    destruct (MapIndex vY key) as [ySpecValue|] eqn:Hk; constructor; [|constructor].
    simpl. apply MapIndex_In in Hk. rewrite Forall_forall in HvY. exact (HvY _ Hk _ _). }
  destruct (objectLoop rec path vY vX []) as [conflicts err|p]; [|contradiction].
  destruct (0 <? length conflicts); [exact I|].
  rewrite specLoop_run. apply run_returns.
  apply Forall_flat_map. eapply Forall_impl; [|exact HvY].
  intros [key ySpecValue] Hhead. simpl in Hhead.
  unfold specStep. simpl.
  destruct (getMarker ySpecValue) as [isMarker_ marker].
  repeat match goal with
  | |- context [if ?b then _ else _] => destruct b
  | |- context [match MapIndex ?m ?k with _ => _ end] => destruct (MapIndex m k)
  end;
  first [ apply Forall_nil
        | apply Forall_cons; [|apply Forall_nil]; simpl; first [exact I | apply Hhead] ].
Qed.

End LoopsReturn.

Lemma _match_returns lib : forall spec, pairFree spec -> returnsOn (_match lib) spec.
Proof.
  induction spec as [|b|q|s|vY IH|vY IH] using Value_nested_ind;
    intros Hfree path x; rewrite _match_unfold; unfold _match_body.
  - exact I.
  - destruct x; try exact I. simpl. unfold _matchPrimitive. destruct (negb _); exact I.
  - destruct x; try exact I. simpl. unfold _matchPrimitive. destruct (negb _); exact I.
  - unfold getMarker. destruct (HasPrefix s "#"); simpl.
    + apply _matchWithMarker_returns.
    + destruct x; try exact I. simpl. unfold _matchPrimitive. destruct (negb _); exact I.
  - destruct x as [| | | |vX|]; try exact I.
    inversion Hfree as [| | | |l Hl Hpair|]; subst.
    apply _matchSlice_returns; [|assumption].
    rewrite Forall_forall in *. intros v Hv. exact (IH v Hv (Hl v Hv)).
  - destruct x as [| | | | |vX]; try exact I.
    inversion Hfree as [| | | | |l Hl]; subst.
    apply _matchMap_returns.
    rewrite Forall_forall in *. intros kv Hkv. exact (IH kv Hkv (Hl kv Hkv)).
Qed.

(** X11: with a pattern in which every array of two elements is of the wildcard
    form, [_match] returns, whatever the actual value: no index is out of
    range.  So do [JSONMatches] and [JSONStringMatches] when the pattern
    decodes to such a value, whatever the actual text. *)
Theorem no_panic_without_pair_pattern (lib : GoLib) (spec : Value)
  (Hfree : pairFree spec) :
  (forall path x, exists conflicts err, _match lib path x spec = Returns conflicts err) /\
  (forall j jPatternSpecifier,
     json_Unmarshal lib jPatternSpecifier = inl spec ->
     (exists conflicts err, JSONMatches lib j jPatternSpecifier = Returns conflicts err) /\
     (exists conflicts err,
        JSONStringMatches lib j jPatternSpecifier = Returns conflicts err)).
Proof.
  assert (Hmatch : forall path x,
            exists conflicts err, _match lib path x spec = Returns conflicts err).
  { intros path x. pose proof (@_match_returns lib spec Hfree path x) as H.
    destruct (_match lib path x spec) as [conflicts err|p]; [eauto | contradiction]. }
  split; [exact Hmatch|].
  intros j jp Hp. unfold JSONStringMatches, JSONMatches.
  destruct (json_Unmarshal lib j) as [jAny|e]; [|split; eauto].
  rewrite Hp. destruct (Hmatch "/" jAny) as [conflicts [err ->]]. split; eauto.
Qed.

(** A pattern of three elements, and an actual array of five. *)
Lemma no_panic_without_pair_pattern_witness :
  pairFree (VArr [VNum 1; VNum 2; VNum 3]) /\
  exists conflicts err,
    _match fragmentLib "/" (VArr [VNum 1; VNum 2; VNum 3; VNum 4; VNum 5])
      (VArr [VNum 1; VNum 2; VNum 3]) = Returns conflicts err.
Proof.
  assert (Hfree : pairFree (VArr [VNum 1; VNum 2; VNum 3])).
  { apply pairFree_arr; [|discriminate].
    repeat first [apply Forall_cons | apply Forall_nil | apply pairFree_num]. }
  split; [exact Hfree|].
  exact (proj1 (@no_panic_without_pair_pattern fragmentLib
                  (VArr [VNum 1; VNum 2; VNum 3]) Hfree) "/"
           (VArr [VNum 1; VNum 2; VNum 3; VNum 4; VNum 5])).
Defined.

(** ** When an array or an object matches *)

Lemma sliceSteps_clean rec path isArrayOf arrayOf vY : forall rest i,
  Forall cleanStep (sliceSteps rec path isArrayOf arrayOf vY i rest) <->
  forall k x, Index rest k = Some x ->
    exists y, (if isArrayOf then Some arrayOf else Index vY (i + k)) = Some y /\
              rec (path ++ "[" ++ Sprint_int (i + k) ++ "]")%string x y = Returns [] None.
Proof.
  induction rest as [|xElem rest IH]; intros i; simpl.
  - split; [intros _ [|k] x H; discriminate H | constructor].
  - split.
    + intros H. inversion H as [|s l Hhead Htail]; subst.
      intros [|k] x Hk; simpl in Hk.
      * injection Hk as <-. rewrite Nat.add_0_r.
        destruct (if isArrayOf then Some arrayOf else Index vY i) as [y|];
          [|contradiction]. eauto.
      * rewrite (IH (S i)) in Htail. specialize (Htail k x Hk).
        replace (i + S k) with (S i + k) by lia.
        destruct isArrayOf; exact Htail.
    + intros H. constructor.
      * destruct (H 0 xElem eq_refl) as [y [Hy Hrec]]. rewrite Nat.add_0_r in Hy, Hrec.
        rewrite Hy. exact Hrec.
      * apply IH. intros k x Hk. specialize (H (S k) x Hk).
        replace (i + S k) with (S i + k) in H by lia. exact H.
Qed.

Lemma sliceLoop_clean rec path isArrayOf arrayOf vY vX :
  sliceLoop rec path isArrayOf arrayOf vY 0 vX [] = Returns [] None <->
  forall i x, Index vX i = Some x ->
    exists y, (if isArrayOf then Some arrayOf else Index vY i) = Some y /\
              rec (path ++ "[" ++ Sprint_int i ++ "]")%string x y = Returns [] None.
Proof.
  rewrite sliceLoop_run, run_clean, sliceSteps_clean. simpl. tauto.
Qed.

Lemma getMarker_true y marker : getMarker y = (true, marker) -> y = VStr marker.
Proof.
  destruct y as [| | |s| |]; try discriminate. unfold getMarker.
  destruct (HasPrefix s "#"); congruence.
Qed.

Lemma wildcardOf_Some vY p : wildcardOf vY = Some p <-> vY = [VStr "#array-of"; p].
Proof.
  split; [|intros ->; reflexivity].
  destruct vY as [|first [|second [|third vY]]]; try discriminate. unfold wildcardOf.
  destruct (getMarker first) as [isMarker_ firstMarker] eqn:Hm.
  destruct isMarker_; [|discriminate]. cbn [andb].
  destruct (String.eqb_spec firstMarker "#array-of") as [->|_]; [|discriminate].
  apply getMarker_true in Hm. congruence.
Qed.

Lemma _matchSlice_clean rec path vX vY :
  _matchSlice rec path (VArr vX) (VArr vY) = Returns [] None <->
  match wildcardOf vY with
  | Some p =>
      forall i x, Index vX i = Some x ->
        rec (path ++ "[" ++ Sprint_int i ++ "]")%string x p = Returns [] None
  | None =>
      (length vY = 2 \/ length vX = length vY) /\
      forall i x, Index vX i = Some x ->
        exists y, Index vY i = Some y /\
                  rec (path ++ "[" ++ Sprint_int i ++ "]")%string x y = Returns [] None
  end.
Proof.
  unfold _matchSlice, wildcardOf.
  destruct (Nat.eqb_spec (length vY) 2) as [H2|H2].
  - destruct vY as [|first [|second [|third vY]]]; try discriminate H2.
    cbn [Index].
    destruct (getMarker first) as [isMarker_ firstMarker].
    destruct (isMarker_ && String.eqb firstMarker "#array-of").
    + rewrite sliceLoop_clean. split.
      * intros H i x Hi. destruct (H i x Hi) as [y [Hy Hr]]. now injection Hy as <-.
      * intros H i x Hi. exists second. auto.
    + rewrite sliceLoop_clean. intuition.
  - assert (Hwild : match vY with
                    | [first; second] =>
                        let (isMarker_, firstMarker) := getMarker first in
                        if isMarker_ && String.eqb firstMarker "#array-of"
                        then Some second else None
                    | _ => None
                    end = None).
    { destruct vY as [|first [|second [|third vY]]]; try reflexivity.
      now contradiction H2. }
    rewrite Hwild.
    destruct (Nat.eqb_spec (length vX) (length vY)) as [Hlen|Hlen]; cbn [negb].
    + rewrite sliceLoop_clean. intuition.
    + split; [discriminate|]. intros [[H|H] _]; contradiction.
Qed.

Lemma objectLoop_clean rec path vY iterX :
  objectLoop rec path vY iterX [] = Returns [] None <->
  forall key value spec,
    In (key, value) iterX -> MapIndex vY key = Some spec ->
    rec (path ++ "/" ++ key)%string value spec = Returns [] None.
Proof.
  rewrite objectLoop_run, run_clean, Forall_flat_map, Forall_forall. split.
  - intros [_ H] key value spec Hin Hk. specialize (H (key, value) Hin).
    unfold objectStep in H. simpl in H. rewrite Hk in H.
    inversion H as [|s l Hhead _]; subst. exact Hhead.
  - intros H. split; [reflexivity|]. intros [key value] Hin.
    unfold objectStep. simpl.
    destruct (MapIndex vY key) as [spec|] eqn:Hk; constructor; [|constructor].
    simpl. now apply (H key value spec).
Qed.

Lemma specLoop_clean rec path vX iterY :
  specLoop rec path vX iterY [] = Returns [] None <->
  forall key spec, In (key, spec) iterY ->
    Forall cleanStep (specStep rec path vX (key, spec)).
Proof.
  rewrite specLoop_run, run_clean, Forall_flat_map, Forall_forall. split.
  - intros [_ H] key spec Hin. exact (H (key, spec) Hin).
  - intros H. split; [reflexivity|]. intros [key spec] Hin. now apply H.
Qed.

Lemma _match_notpresent lib path x :
  _match lib path x (VStr "#notpresent") <> Returns [] None.
Proof. destruct x; discriminate. Qed.

Lemma _match_present lib path x : _match lib path x (VStr "#present") = Returns [] None.
Proof. destruct x; reflexivity. Qed.

Lemma _match_ignore lib path x : _match lib path x (VStr "#ignore") = Returns [] None.
Proof. destruct x; reflexivity. Qed.

(** One round of the second phase, for [_match]: what it asks of the key. *)
Lemma specStep_clean lib path vX key spec :
  (forall x, MapIndex vX key = Some x ->
     (_match lib (path ++ "/" ++ key)%string x spec = Returns [] None)) ->
  (MapIndex vX key = None -> spec = VStr "#notpresent" \/ spec = VStr "#ignore") ->
  Forall cleanStep (specStep (_match lib) path vX (key, spec)).
Proof.
  intros Hsome Hnone. unfold specStep. cbn [fst snd].
  unfold isMarker. destruct (getMarker spec) as [isMarker_ marker] eqn:Hm.
  destruct isMarker_; cbn [andb].
  - apply getMarker_true in Hm. subst spec.
    unfold presentMarker, ignoreMarker.
    destruct (String.eqb_spec marker "#notpresent") as [->|Hnp].
    { destruct (MapIndex vX key) as [x|]; [|constructor].
      exfalso. exact (@_match_notpresent lib _ x (Hsome x eq_refl)). }
    destruct (String.eqb_spec marker "#present") as [->|Hp].
    { destruct (MapIndex vX key) as [x|]; [constructor|].
      destruct (Hnone eq_refl) as [H|H]; discriminate H. }
    destruct (String.eqb_spec "#ignore" marker) as [<-|Hi]; cbn [negb]; [constructor|].
    destruct (MapIndex vX key) as [x|].
    + constructor; [|constructor]. simpl. now apply Hsome.
    + destruct (Hnone eq_refl) as [H|H]; congruence.
  - cbn [negb].
    destruct (MapIndex vX key) as [x|].
    + constructor; [|constructor]. simpl. now apply Hsome.
    + destruct (Hnone eq_refl) as [H|H]; subst spec; discriminate Hm.
Qed.

Lemma specStep_clean_inv lib path vX key spec :
  Forall cleanStep (specStep (_match lib) path vX (key, spec)) ->
  MapIndex vX key = None -> spec = VStr "#notpresent" \/ spec = VStr "#ignore".
Proof.
  unfold specStep. cbn [fst snd]. intros H Hk. rewrite Hk in H.
  unfold isMarker in H. destruct (getMarker spec) as [isMarker_ marker] eqn:Hm.
  assert (Hreport : forall c, ~ Forall cleanStep [Report c]).
  { intros c Hc. inversion Hc as [|s l Hhead _]; subst. contradiction. }
  destruct isMarker_; cbn [andb negb] in H.
  - apply getMarker_true in Hm. subst spec.
    unfold presentMarker, ignoreMarker in H. revert H.
    destruct (String.eqb_spec marker "#notpresent") as [Hnp|Hnp]; [subst; now left|].
    destruct (String.eqb_spec marker "#present") as [Hp|Hp].
    { intros H. now apply Hreport in H. }
    destruct (String.eqb_spec "#ignore" marker) as [Hi|Hi]; [subst; now right|].
    cbn [negb]. intros H. now apply Hreport in H.
  - now apply Hreport in H.
Qed.

Lemma _matchMap_clean lib path vX vY :
  NoDup (keys vX) -> NoDup (keys vY) ->
  (_match lib path (VObj vX) (VObj vY) = Returns [] None <->
   forall key spec, In (key, spec) vY ->
     match MapIndex vX key with
     | Some x => _match lib (path ++ "/" ++ key)%string x spec = Returns [] None
     | None => spec = VStr "#notpresent" \/ spec = VStr "#ignore"
     end).
Proof.
  intros HX HY. rewrite _match_maps. unfold _matchMap.
  unfold _matchMapCheckIteratingObject, _matchMapCheckIteratingSpec.
  pose proof (@objectLoop_clean (_match lib) path vY vX) as Hphase1.
  pose proof (@objectLoop_errorHasConflict (_match lib) path vY
                ltac:(apply Forall_forall; intros kv _ p x;
                      apply _match_errorHasConflict) vX []) as Herr.
  split.
  - intros H key spec Hin.
    destruct (objectLoop (_match lib) path vY vX []) as [conflicts err|p];
      [|discriminate H].
    destruct conflicts as [|c conflicts]; [|simpl in H; discriminate H].
    simpl in H, Herr. destruct err as [e|]; [now contradiction Herr|].
    rewrite specLoop_clean in H. specialize (H key spec Hin).
    destruct (MapIndex vX key) as [x|] eqn:Hk.
    + apply (proj1 Hphase1 eq_refl key x spec).
      * now apply MapIndex_In.
      * now apply MapIndex_NoDup.
    + exact (@specStep_clean_inv lib path vX key spec H Hk).
  - intros H.
    assert (H1 : objectLoop (_match lib) path vY vX [] = Returns [] None).
    { apply Hphase1. intros key value spec Hin Hk.
      apply MapIndex_In in Hk. specialize (H key spec Hk).
      now rewrite (@MapIndex_NoDup vX HX key value Hin) in H. }
    rewrite H1. simpl. apply specLoop_clean. intros key spec Hin.
    specialize (H key spec Hin). apply specStep_clean.
    + intros x Hx. now rewrite Hx in H.
    + intros Hx. now rewrite Hx in H.
Qed.

(** X12: an array matches a pattern of the wildcard form when each of its
    elements matches the pattern of the form; it matches another pattern
    when the pattern has its length, or two elements, and each of its
    elements matches the element of the pattern at its index. *)
Theorem array_matches_elementwise (lib : GoLib) (path : string) (vX vY : list Value) :
  (forall p, vY = [VStr "#array-of"; p] ->
     (_match lib path (VArr vX) (VArr vY) = Returns [] None <->
      forall i x, Index vX i = Some x ->
        _match lib (path ++ "[" ++ Sprint_int i ++ "]")%string x p = Returns [] None)) /\
  ((forall p, vY <> [VStr "#array-of"; p]) ->
     (_match lib path (VArr vX) (VArr vY) = Returns [] None <->
      (length vY = 2 \/ length vX = length vY) /\
      forall i x, Index vX i = Some x ->
        exists y, Index vY i = Some y /\
          _match lib (path ++ "[" ++ Sprint_int i ++ "]")%string x y = Returns [] None)).
Proof.
  split.
  - intros p Hp. rewrite _match_slices, _matchSlice_clean.
    apply wildcardOf_Some in Hp. rewrite Hp. tauto.
  - intros Hno. rewrite _match_slices, _matchSlice_clean.
    destruct (wildcardOf vY) as [p|] eqn:Hw; [|tauto].
    apply wildcardOf_Some in Hw. now contradiction (Hno p).
Qed.

(** X13: an object matches a pattern object when, for each key of the pattern,
    the value the object has at the key matches the pattern of the key or,
    the object being without the key, that pattern is [#notpresent] or
    [#ignore]; the keys the pattern does not have are not looked at. *)
Theorem object_matches_keywise (lib : GoLib) (path : string) (vX vY : entries)
  (HX : NoDup (keys vX)) (HY : NoDup (keys vY)) :
  _match lib path (VObj vX) (VObj vY) = Returns [] None <->
  forall key spec, In (key, spec) vY ->
    match MapIndex vX key with
    | Some x => _match lib (path ++ "/" ++ key)%string x spec = Returns [] None
    | None => spec = VStr "#notpresent" \/ spec = VStr "#ignore"
    end.
Proof. exact (@_matchMap_clean lib path vX vY HX HY). Qed.

(** The key [extra] is not in the pattern, the key [gone] not in the
    object, and the value at [note] is null. *)
Lemma object_matches_keywise_witness :
  _match fragmentLib "/"
    (VObj [("extra", VBool true); ("age", VNum 30); ("note", VNull)])
    (VObj [("age", VStr "#number"); ("gone", VStr "#notpresent");
           ("note", VStr "#present")]) = Returns [] None.
Proof.
  assert (HX : NoDup (keys [("extra", VBool true); ("age", VNum 30); ("note", VNull)])).
  { repeat first [apply NoDup_cons | apply NoDup_nil];
      simpl; intros H; repeat (destruct H as [H|H]; [discriminate H|]); exact H. }
  assert (HY : NoDup (keys [("age", VStr "#number"); ("gone", VStr "#notpresent");
                            ("note", VStr "#present")])).
  { repeat first [apply NoDup_cons | apply NoDup_nil];
      simpl; intros H; repeat (destruct H as [H|H]; [discriminate H|]); exact H. }
  apply (proj2 (@object_matches_keywise fragmentLib "/" _ _ HX HY)).
  intros key spec Hin.
  repeat (destruct Hin as [Hin|Hin];
          [injection Hin as <- <-; first [reflexivity | left; reflexivity]|]).
  contradiction.
Defined.

(** ** Keys the pattern does not have *)

Lemma MapIndex_without pre key value post key' :
  key' <> key ->
  MapIndex (pre ++ (key, value) :: post) key' = MapIndex (pre ++ post) key'.
Proof.
  intros Hne. induction pre as [|[k v] pre IH]; simpl.
  - destruct (String.eqb_spec key key') as [->|_]; [contradiction | reflexivity].
  - now rewrite IH.
Qed.

Lemma specLoop_ext rec path vX vX' : forall iterY conflicts,
  (forall key, In key (keys iterY) -> MapIndex vX key = MapIndex vX' key) ->
  specLoop rec path vX iterY conflicts = specLoop rec path vX' iterY conflicts.
Proof.
  induction iterY as [|[key ySpecValue] iterY IH]; intros conflicts H; simpl;
    [reflexivity|].
  rewrite <- (H key) by (now left).
  assert (IH' : forall c, specLoop rec path vX iterY c = specLoop rec path vX' iterY c).
  { intros c. apply IH. intros k Hk. apply H. now right. }
  destruct (getMarker ySpecValue) as [isMarker_ marker].
  repeat match goal with
  | |- context [if ?b then _ else _] => destruct b
  | |- context [match MapIndex ?m ?k with _ => _ end] => destruct (MapIndex m k)
  end; try apply IH'.
  apply afterItem_ext. exact IH'.
Qed.

Lemma objectLoop_without rec path vY key value post :
  MapIndex vY key = None ->
  forall pre conflicts,
    objectLoop rec path vY (pre ++ (key, value) :: post) conflicts =
    objectLoop rec path vY (pre ++ post) conflicts.
Proof.
  intros Hk. induction pre as [|[k v] pre IH]; intros conflicts; simpl.
  - now rewrite Hk.
  - destruct (MapIndex vY k); [|apply IH].
    apply afterItem_ext. intros c. apply IH.
Qed.

Lemma MapIndex_None m key : ~ In key (keys m) -> MapIndex m key = None.
Proof.
  induction m as [|[k v] m IH]; simpl; [reflexivity|]. intros H.
  destruct (String.eqb_spec k key) as [->|_]; [exfalso; apply H; now left|].
  apply IH. intros Hin. apply H. now right.
Qed.

(** X14: a key of the actual object that the pattern object does not have has no
    part in the result: with the key and without it, [_match] returns the
    same. *)
Theorem key_outside_pattern_is_ignored (lib : GoLib) (path : string)
  (pre post vY : entries) (key : string) (value : Value)
  (Hkey : ~ In key (keys vY)) :
  _match lib path (VObj (pre ++ (key, value) :: post)) (VObj vY) =
  _match lib path (VObj (pre ++ post)) (VObj vY).
Proof.
  rewrite !_match_maps. unfold _matchMap.
  unfold _matchMapCheckIteratingObject, _matchMapCheckIteratingSpec.
  rewrite (@objectLoop_without (_match lib) path vY key value post
             (MapIndex_None vY key Hkey) pre []).
  rewrite (@specLoop_ext (_match lib) path (pre ++ (key, value) :: post) (pre ++ post)
             vY []); [reflexivity|].
  intros key' Hin. apply MapIndex_without. intros ->. contradiction.
Qed.

Lemma key_outside_pattern_is_ignored_witness :
  _match fragmentLib "/" (VObj ([("a", VNum 1)] ++ ("extra", VStr "x") :: [("b", VNum 2)]))
    (VObj [("a", VNum 1); ("b", VNum 3)]) =
  _match fragmentLib "/" (VObj ([("a", VNum 1)] ++ [("b", VNum 2)]))
    (VObj [("a", VNum 1); ("b", VNum 3)]).
Proof.
  apply (@key_outside_pattern_is_ignored fragmentLib "/" [("a", VNum 1)] [("b", VNum 2)]
           [("a", VNum 1); ("b", VNum 3)] "extra" (VStr "x")).
  simpl. intros H. repeat (destruct H as [H|H]; [discriminate H|]). exact H.
Defined.

(** ** The argument of a marker *)

(** X15: for an actual value that is not null, what follows the first space of a
    marker other than [#regex] has no part in whether the value is accepted,
    nor in whether an error is returned. *)
Theorem marker_argument_is_ignored (lib : GoLib) (path : string) (x : Value)
  (name rest : string)
  (Hx : x <> VNull)
  (Hname : ~ In " "%char (list_ascii_of_string name))
  (Hregex : name <> "#regex") :
  (_matchWithMarker lib path x (name ++ String " " rest) = Returns [] None <->
   _matchWithMarker lib path x name = Returns [] None) /\
  ((exists conflicts,
      _matchWithMarker lib path x (name ++ String " " rest) = Returns conflicts None) <->
   (exists conflicts, _matchWithMarker lib path x name = Returns conflicts None)).
Proof.
  unfold _matchWithMarker.
  rewrite (SplitN2_at_first_space name rest Hname), (SplitN2_space_free name Hname).
  assert (Hnil : isNil x = false) by (destruct x; [contradiction|reflexivity..]).
  assert (Hvalid : IsValid x = true) by (destruct x; [contradiction|reflexivity..]).
  rewrite Hnil, Hvalid. cbn [andb negb].
  destruct (String.eqb_spec name "#regex") as [E|_]; [contradiction|].
  repeat match goal with
  | |- context [if ?b then _ else _] => destruct b
  | |- context [match ?t with _ => _ end] => destruct t
  end;
  split; split; intros H; try reflexivity; try discriminate H;
    try (destruct H as [cs H]; discriminate H); eexists; reflexivity.
Qed.

Lemma marker_argument_is_ignored_witness :
  _matchWithMarker fragmentLib "/" (VStr "s") ("#string" ++ String " " "or so") =
  Returns [] None.
Proof.
  apply (proj1 (@marker_argument_is_ignored fragmentLib "/" (VStr "s") "#string" "or so"
                  ltac:(discriminate)
                  ltac:(simpl; intros H;
                        repeat (destruct H as [H|H]; [discriminate H|]); exact H)
                  ltac:(discriminate))).
  reflexivity.
Defined.

(** ** The order of the keys of a map *)

Lemma Forall2_Index (R : Value -> Value -> Prop) xs ys :
  Forall2 R xs ys ->
  forall i,
    (forall x, Index xs i = Some x -> exists y, Index ys i = Some y /\ R x y) /\
    (forall y, Index ys i = Some y -> exists x, Index xs i = Some x /\ R x y).
Proof.
  induction 1 as [|x y xs ys Hxy _ IH]; intros [|i]; simpl; split;
    try discriminate; intros v Hv.
  - injection Hv as <-. eauto.
  - injection Hv as <-. eauto.
  - now apply IH.
  - now apply IH.
Qed.

(** What a string pattern, marker or not, asks of the actual value is the
    same for two values that differ in the order of their maps. *)
Lemma _match_string_same lib path x x' s :
  sameValue x x' ->
  (_match lib path x (VStr s) = Returns [] None <->
   _match lib path x' (VStr s) = Returns [] None).
Proof.
  intros Hx. rewrite !_match_unfold. unfold _match_body.
  cbn [IsValid KindOf reflect.Kind_eqb negb getMarker].
  inversion Hx as [| | | |xs ys Hxs|m m' Hm Hm' Hnone Hsome]; subst; try tauto.
  - destruct (HasPrefix s "#"); cbn [andb IsValid KindOf reflect.Kind_eqb negb];
      [|split; discriminate].
    unfold _matchWithMarker. cbn [isNil IsValid KindOf reflect.Kind_eqb negb andb].
    pose proof (SplitN2_not_nil s) as Hparts.
    destruct (SplitN2 s) as [|name args]; [contradiction|].
    repeat match goal with
    | |- context [if ?b then _ else _] => destruct b
    | |- context [match ?t with _ => _ end] => destruct t
    end; split; intros H; try reflexivity; discriminate H.
  - destruct (HasPrefix s "#"); cbn [andb IsValid KindOf reflect.Kind_eqb negb];
      [|split; discriminate].
    unfold _matchWithMarker. cbn [isNil IsValid KindOf reflect.Kind_eqb negb andb].
    pose proof (SplitN2_not_nil s) as Hparts.
    destruct (SplitN2 s) as [|name args]; [contradiction|].
    repeat match goal with
    | |- context [if ?b then _ else _] => destruct b
    | |- context [match ?t with _ => _ end] => destruct t
    end; split; intros H; try reflexivity; discriminate H.
Qed.

Lemma wildcardOf_same vY vY' :
  Forall2 sameValue vY vY' ->
  match wildcardOf vY, wildcardOf vY' with
  | Some p, Some p' => sameValue p p'
  | None, None => True
  | _, _ => False
  end.
Proof.
  intros H.
  destruct (wildcardOf vY) as [p|] eqn:Hw.
  - apply wildcardOf_Some in Hw. subst vY.
    inversion H as [|f f' l l' Hf Hl]; subst.
    inversion Hl as [|s s' l0 l0' Hs Hl0]; subst. inversion Hl0; subst.
    inversion Hf; subst. exact Hs.
  - destruct (wildcardOf vY') as [p'|] eqn:Hw'; [|exact I].
    apply wildcardOf_Some in Hw'. subst vY'.
    inversion H as [|f f' l l' Hf Hl]; subst.
    inversion Hl as [|s s' l0 l0' Hs Hl0]; subst. inversion Hl0; subst.
    inversion Hf; subst. discriminate Hw.
Qed.

Lemma _match_same lib : forall spec spec' path x x',
  sameValue x x' -> sameValue spec spec' ->
  (_match lib path x spec = Returns [] None <->
   _match lib path x' spec' = Returns [] None).
Proof.
  induction spec as [|b|q|s|vY IH|vY IH] using Value_nested_ind;
    intros spec' path x x' Hx Hspec.
  - inversion Hspec; subst. inversion Hx; subst; try tauto; split; discriminate.
  - inversion Hspec; subst. inversion Hx; subst; try tauto; split; discriminate.
  - inversion Hspec; subst. inversion Hx; subst; try tauto; split; discriminate.
  - inversion Hspec; subst. now apply _match_string_same.
  - inversion Hspec as [| | | |l vY' HvY|]; subst.
    inversion Hx as [| | | |vX vX' HvX|]; subst; try (split; discriminate).
    rewrite !_match_slices, !_matchSlice_clean.
    pose proof (wildcardOf_same HvY) as Hw.
    pose proof (Forall2_length HvX) as HlenX.
    pose proof (Forall2_length HvY) as HlenY.
    rewrite Forall_forall in IH.
    destruct (wildcardOf vY) as [p|] eqn:Hp; destruct (wildcardOf vY') as [p'|];
      try contradiction.
    + apply wildcardOf_Some in Hp.
      assert (IHp : forall path0 y y', sameValue y y' ->
                (_match lib path0 y p = Returns [] None <->
                 _match lib path0 y' p' = Returns [] None)).
      { intros path0 y y' Hy. apply IH; [|assumption|assumption].
        subst vY. right. now left. }
      split; intros H i v Hv.
      * destruct (proj2 (Forall2_Index HvX i) v Hv) as [u [Hu Huv]].
        apply (IHp _ u v Huv). now apply H.
      * destruct (proj1 (Forall2_Index HvX i) v Hv) as [u [Hu Huv]].
        apply (IHp _ v u Huv). now apply H.
    + split; intros [Hlen H]; (split; [lia|]); intros i v Hv.
      * destruct (proj2 (Forall2_Index HvX i) v Hv) as [u [Hu Huv]].
        destruct (H i u Hu) as [y [Hy Hclean]].
        destruct (proj1 (Forall2_Index HvY i) y Hy) as [y' [Hy' Hyy']].
        exists y'. split; [assumption|].
        apply (IH y (Index_In _ _ Hy) y' _ u v Huv Hyy'). exact Hclean.
      * destruct (proj1 (Forall2_Index HvX i) v Hv) as [u [Hu Huv]].
        destruct (H i u Hu) as [y' [Hy' Hclean]].
        destruct (proj2 (Forall2_Index HvY i) y' Hy') as [y [Hy Hyy']].
        exists y. split; [assumption|].
        apply (IH y (Index_In _ _ Hy) y' _ v u Huv Hyy'). exact Hclean.
  - inversion Hspec as [| | | | |l vY' HY HY' HnoneY HsomeY]; subst.
    inversion Hx as [| | | | |vX vX' HX HX' HnoneX HsomeX]; subst;
      try (split; discriminate).
    rewrite (@_matchMap_clean lib path vX vY HX HY).
    rewrite (@_matchMap_clean lib path vX' vY' HX' HY').
    rewrite Forall_forall in IH.
    split; intros H key spec Hin.
    + (* from the first pair to the second *)
      pose proof (@MapIndex_NoDup vY' HY' key spec Hin) as Hk'.
      destruct (MapIndex vY key) as [spec0|] eqn:Hk.
      2:{ apply HnoneY in Hk. congruence. }
      pose proof (HsomeY key spec0 spec Hk Hk') as Hss.
      pose proof (MapIndex_In _ _ Hk) as Hin0.
      specialize (H key spec0 Hin0).
      destruct (MapIndex vX' key) as [v'|] eqn:Hv'.
      * destruct (MapIndex vX key) as [v|] eqn:Hv.
        2:{ apply HnoneX in Hv. congruence. }
        apply (IH (key, spec0) Hin0 spec _ v v' (HsomeX key v v' Hv Hv') Hss).
        exact H.
      * apply HnoneX in Hv'. rewrite Hv' in H.
        destruct H as [-> | ->]; inversion Hss; subst; tauto.
    + pose proof (@MapIndex_NoDup vY HY key spec Hin) as Hk.
      destruct (MapIndex vY' key) as [spec0|] eqn:Hk'.
      2:{ apply HnoneY in Hk'. congruence. }
      pose proof (HsomeY key spec spec0 Hk Hk') as Hss.
      pose proof (MapIndex_In _ _ Hk') as Hin0.
      specialize (H key spec0 Hin0).
      destruct (MapIndex vX key) as [v|] eqn:Hv.
      * destruct (MapIndex vX' key) as [v'|] eqn:Hv'.
        2:{ apply HnoneX in Hv'. congruence. }
        apply (IH (key, spec) Hin spec0 _ v v' (HsomeX key v v' Hv Hv') Hss).
        exact H.
      * apply HnoneX in Hv. rewrite Hv in H.
        destruct H as [-> | ->]; inversion Hss; subst; tauto.
Qed.

(** X16: whether a value matches a pattern does not depend on the order in which
    the maps of the value and of the pattern hold their keys, which is the
    order in which the loops go through them. *)
Theorem match_independent_of_key_order (lib : GoLib) (path : string)
  (x x' spec spec' : Value)
  (Hx : sameValue x x') (Hspec : sameValue spec spec') :
  _match lib path x spec = Returns [] None <->
  _match lib path x' spec' = Returns [] None.
Proof. exact (@_match_same lib spec spec' path x x' Hx Hspec). Qed.

(** The same object and the same pattern, their keys in two orders. *)
Lemma match_independent_of_key_order_witness :
  _match fragmentLib "/" (VObj [("a", VNum 1); ("b", VStr "x")])
    (VObj [("a", VNum 1); ("b", VStr "#string")]) = Returns [] None <->
  _match fragmentLib "/" (VObj [("b", VStr "x"); ("a", VNum 1)])
    (VObj [("b", VStr "#string"); ("a", VNum 1)]) = Returns [] None.
Proof.
  assert (Hab : NoDup ["a"; "b"]).
  { repeat first [apply NoDup_cons | apply NoDup_nil];
      simpl; intros H; repeat (destruct H as [H|H]; [discriminate H|]); exact H. }
  assert (Hba : NoDup ["b"; "a"]).
  { repeat first [apply NoDup_cons | apply NoDup_nil];
      simpl; intros H; repeat (destruct H as [H|H]; [discriminate H|]); exact H. }
  assert (Hsame : forall u v : Value, sameValue u u -> sameValue v v ->
            sameValue (VObj [("a", u); ("b", v)]) (VObj [("b", v); ("a", u)])).
  { intros u v Hu Hv. apply same_obj; try assumption.
    - intros key. cbn [MapIndex].
      destruct (String.eqb "a" key), (String.eqb "b" key); split; congruence.
    - intros key w w'. cbn [MapIndex].
      destruct (String.eqb_spec "a" key) as [<-|Ha].
      + cbn. intros H H'. injection H as <-. injection H' as <-. exact Hu.
      + destruct (String.eqb_spec "b" key) as [<-|Hb]; [|discriminate].
        intros H H'. injection H as <-. injection H' as <-. exact Hv. }
  exact (@match_independent_of_key_order fragmentLib "/" _ _ _ _
           (Hsame (VNum 1) (VStr "x") (same_num 1) (same_str "x"))
           (Hsame (VNum 1) (VStr "#string") (same_num 1) (same_str "#string"))).
Defined.

(** ** After an error *)

Lemma sliceSteps_app rec path isArrayOf arrayOf vY : forall pre i rest,
  sliceSteps rec path isArrayOf arrayOf vY i (pre ++ rest) =
  sliceSteps rec path isArrayOf arrayOf vY i pre ++
  sliceSteps rec path isArrayOf arrayOf vY (i + length pre) rest.
Proof.
  induction pre as [|x pre IH]; intros i rest; simpl.
  - now rewrite Nat.add_0_r.
  - rewrite IH. now replace (S i + length pre) with (i + S (length pre)) by lia.
Qed.

Lemma sliceLoop_stops (rec : matcher) path (isArrayOf : bool) arrayOf vY pre x post post' :
  (forall y, (if isArrayOf then Some arrayOf else Index vY (length pre)) = Some y ->
     exists conflicts e,
       rec (path ++ "[" ++ Sprint_int (length pre) ++ "]")%string x y =
       Returns conflicts (Some e)) ->
  sliceLoop rec path isArrayOf arrayOf vY 0 (pre ++ x :: post) [] =
  sliceLoop rec path isArrayOf arrayOf vY 0 (pre ++ x :: post') [].
Proof.
  intros Herr. rewrite !sliceLoop_run, !sliceSteps_app, !run_app.
  cbn [sliceSteps Nat.add].
  destruct (run (sliceSteps rec path isArrayOf arrayOf vY 0 pre) [])
    as [conflicts' [e'|]|p]; try reflexivity.
  destruct (if isArrayOf then Some arrayOf else Index vY (length pre)) as [y|];
    [|reflexivity].
  destruct (Herr y eq_refl) as [conflicts [e He]]. cbn [run]. now rewrite He.
Qed.

(** X17: when the match of an element of the actual array returns an error, the
    elements after it have no part in the result: with a pattern of two
    elements or of the length of the array, [_match] returns the same with
    other elements, as many, in their place. *)
Theorem array_match_stops_at_error (lib : GoLib) (path : string)
  (pre post post' vY : list Value) (x y : Value)
  (conflicts : list Conflict) (e : error)
  (Hlen : length post = length post')
  (Hcheck : length vY = 2 \/ length vY = length (pre ++ x :: post))
  (Hy : patternAt vY (length pre) = Some y)
  (Herr : _match lib (path ++ "[" ++ Sprint_int (length pre) ++ "]")%string x y =
          Returns conflicts (Some e)) :
  _match lib path (VArr (pre ++ x :: post)) (VArr vY) =
  _match lib path (VArr (pre ++ x :: post')) (VArr vY).
Proof.
  rewrite !_match_slices. unfold _matchSlice.
  assert (Hlens : length (pre ++ x :: post') = length (pre ++ x :: post)).
  { rewrite !length_app. simpl. lia. }
  rewrite Hlens. unfold patternAt, wildcardOf in Hy.
  destruct (Nat.eqb_spec (length vY) 2) as [H2|H2].
  - destruct vY as [|first [|second [|third vY]]]; try discriminate H2.
    cbn [Index].
    destruct (getMarker first) as [isMarker_ firstMarker].
    destruct (isMarker_ && String.eqb firstMarker "#array-of").
    + apply sliceLoop_stops. intros y' Hy'. injection Hy as <-. injection Hy' as <-.
      eauto.
    + apply sliceLoop_stops. intros y' Hy'. rewrite Hy in Hy'. injection Hy' as <-.
      eauto.
  - destruct Hcheck as [Hcheck|Hcheck]; [contradiction|].
    rewrite <- Hcheck, Nat.eqb_refl. cbn [negb].
    apply sliceLoop_stops. intros y' Hy'.
    assert (Hw : Index vY (length pre) = Some y).
    { destruct vY as [|first [|second [|third vY]]]; try exact Hy. now contradiction H2. }
    rewrite Hw in Hy'. injection Hy' as <-. eauto.
Qed.

Lemma array_match_stops_at_error_witness :
  _match fragmentLib "/" (VArr ([VNum 2] ++ VNum 5 :: [VNum 3]))
    (VArr [VNum 1; VStr "#integer"; VNum 3]) =
  _match fragmentLib "/" (VArr ([VNum 2] ++ VNum 5 :: [VBool true]))
    (VArr [VNum 1; VStr "#integer"; VNum 3]).
Proof.
  apply (@array_match_stops_at_error fragmentLib "/" [VNum 2] [VNum 3] [VBool true]
           [VNum 1; VStr "#integer"; VNum 3] (VNum 5) (VStr "#integer")
           [mkConflict "/[1]" (VStr "#integer") (Got (VNum 5)) None]
           (ErrUnsupportedPattern "#integer")).
  - reflexivity.
  - right. reflexivity.
  - reflexivity.
  - reflexivity.
Defined.
